(** * gotstate: the guarded-transition engine, its event queue and its timers

    A shallow embedding of

    - [hsm/core/guards.py]: [GuardBase._raise_guard_error], [NoOpGuard.check]
      and [ConditionGuard.check];
    - [hsm/runtime/async_support.py]: [AsyncEventQueue] and
      [AsyncStateMachine.process_event];
    - the timer state machine, whose code is not among the sources, as the
      spec describes it, and the unit test
      [test_timer_validate_schedule_state] of [hsm/tests/unit/test_timers.py].

    Python objects become records, methods become functions that take the
    object first, and code that may raise returns a result that is either a
    value or the exception raised. *)

From stdpp Require Import base option list sorting strings.
From Stdlib Require Import ZArith QArith Lia.

#[local] Set Warnings "-register-all".

Open Scope string_scope.
Open Scope list_scope.
Open Scope Z_scope.

(** ** Python values, events and exceptions *)

(** The values that flow through the engine as [state_data] and as an event's
    payload (both are typed [Any] in the source). *)
Inductive PyValue : Type :=
| VNone
| VBool (b : bool)
| VInt (z : Z)
| VStr (s : string)
| VDict (items : list (string * PyValue)).

(** Modelled from the spec: [Event] of [hsm/core/events.py], whose class is
    not among the sources: "immutable value carrying an identifier, payload,
    and priority". *)
Record Event : Type := mkEvent {
  get_id : string;
  get_payload : PyValue;
  event_priority : Z
}.

(** What the code asks of an exception's class: its name, whether it derives
    from [Exception] (what [except Exception] catches; [KeyboardInterrupt],
    [SystemExit] and [asyncio.CancelledError] derive from [BaseException]
    only) and whether its instances are true in a boolean context (they are,
    unless the class defines [__bool__] or [__len__]). *)
Record ExcClass : Type := mkExcClass {
  class_name : string;
  class_is_Exception : bool;
  class_truthy : bool
}.

(** The class [GuardEvaluationError] of [hsm/core/errors.py], which is not
    among the sources: how it prints an instance built from [message],
    [guard_name], [state_data] and [event], whether it derives from
    [Exception], and whether its instances are true. *)
Record GuardErrorClass : Type := mkGuardErrorClass {
  error_str : string -> string -> PyValue -> Event -> string;
  error_is_Exception : bool;
  error_truthy : bool
}.

(** Exceptions.  [msg] is [str(e)] and [cause] is the [__cause__] attribute,
    set by [raise ... from ...].

    Modelled from the spec: an instance of [GuardEvaluationError], built in
    [guards.py] as [GuardEvaluationError(message, guard_name, state_data,
    event)]; the spec has it carry "guard name, state data, event, and
    original cause". *)
Inductive exn : Type :=
| PyRaised (cls : ExcClass) (msg : string) (cause : option exn)
| GuardEvaluationError (cls : GuardErrorClass) (message : string)
    (guard_name : string) (state_data : PyValue) (event : Event)
    (cause : option exn).

(** An instance of a class that derives from [Exception] and leaves the
    truth value of its instances alone: [RuntimeError], [KeyError], ... *)
Definition PyException (cls : string) (msg : string) (cause : option exn)
  : exn :=
  PyRaised (mkExcClass cls true true) msg cause.

(** An instance of a class that derives from [BaseException] only. *)
Definition PyBaseException (cls : string) (msg : string)
    (cause : option exn) : exn :=
  PyRaised (mkExcClass cls false true) msg cause.

(** [str(e)], as the f-strings of [guards.py] interpolate it. *)
Definition exn_str (e : exn) : string :=
  match e with
  | PyRaised _ msg _ => msg
  | GuardEvaluationError cls message g sd ev _ => error_str cls message g sd ev
  end.

Definition exn_cause (e : exn) : option exn :=
  match e with
  | PyRaised _ _ c => c
  | GuardEvaluationError _ _ _ _ _ c => c
  end.

(** [isinstance(e, Exception)]. *)
Definition exn_is_Exception (e : exn) : bool :=
  match e with
  | PyRaised cls _ _ => class_is_Exception cls
  | GuardEvaluationError cls _ _ _ _ _ => error_is_Exception cls
  end.

(** [bool(e)]. *)
Definition exn_truthy (e : exn) : bool :=
  match e with
  | PyRaised cls _ _ => class_truthy cls
  | GuardEvaluationError cls _ _ _ _ _ => error_truthy cls
  end.

(** [raise e from c]: the exception raised is [e] with [__cause__ = c]. *)
Definition raise_from (e c : exn) : exn :=
  match e with
  | PyRaised cls msg _ => PyRaised cls msg (Some c)
  | GuardEvaluationError cls message g sd ev _ =>
      GuardEvaluationError cls message g sd ev (Some c)
  end.

(** The outcome of a call: it returns a value or raises. *)
Inductive Res (A : Type) : Type :=
| Ret (a : A)
| Raise (e : exn).
Arguments Ret {A} a.
Arguments Raise {A} e.

(** ** hsm/core/guards.py *)

Module Guards.

(** [GuardBase]: [guard_name] is [self.__class__.__name__]. *)
Record GuardBase : Type := mkGuardBase {
  guard_name : string
}.

(** [ConditionGuard]: the guard object with its user-supplied [condition],
    a callable on [state_data] that returns a truth value or raises. *)
Record ConditionGuard : Type := mkConditionGuard {
  base : GuardBase;
  condition : PyValue -> Res bool
}.

Definition ConditionGuard_new (condition : PyValue -> Res bool)
  : ConditionGuard :=
  mkConditionGuard (mkGuardBase "ConditionGuard") condition.

(** [KeyExistsGuard] with its [required_keys]. *)
Record KeyExistsGuard : Type := mkKeyExistsGuard {
  key_base : GuardBase;
  required_keys : list string
}.

Definition KeyExistsGuard_new (required_keys : list string)
  : KeyExistsGuard :=
  mkKeyExistsGuard (mkGuardBase "KeyExistsGuard") required_keys.

(** [AsyncConditionGuard]: [async_condition state_data] is what awaiting the
    user's coroutine gives, a truth value or an exception. *)
Record AsyncConditionGuard : Type := mkAsyncConditionGuard {
  async_base : GuardBase;
  async_condition : PyValue -> Res bool
}.

Definition AsyncConditionGuard_new (async_condition : PyValue -> Res bool)
  : AsyncConditionGuard :=
  mkAsyncConditionGuard (mkGuardBase "AsyncConditionGuard") async_condition.

(** [isinstance(state_data, dict)]. *)
Definition is_dict (v : PyValue) : bool :=
  match v with
  | VDict _ => true
  | _ => false
  end.

(** [key in state_data], on a dictionary. *)
Definition has_key (key : string) (v : PyValue) : bool :=
  match v with
  | VDict items => existsb (String.eqb key) (map fst items)
  | _ => false
  end.

Section WithErrors.

(** The name [GuardEvaluationError] that [guards.py] imports. *)
Variable errors : GuardErrorClass.

(** [GuardBase._raise_guard_error].  It never returns.  [if cause:] is a
    truth test: [None] is false, and an exception is what its class makes of
    it, so a false exception is dropped and [error] is raised without
    [from]. *)
Definition _raise_guard_error {A : Type} (self : GuardBase)
    (message : string) (state_data : PyValue) (event : Event)
    (cause : option exn) : Res A :=
  let error :=
    GuardEvaluationError errors message (guard_name self) state_data event
      None in
  match cause with
  | Some c => if exn_truthy c then Raise (raise_from error c) else Raise error
  | None => Raise error
  end.

(** [NoOpGuard.check]. *)
Definition NoOpGuard_check (self : GuardBase) (event : Event)
    (state_data : PyValue) : Res bool :=
  Ret true.

(** The [try] block of [ConditionGuard.check]. *)
Definition check_try (self : ConditionGuard) (event : Event)
    (state_data : PyValue) : Res unit :=
  match condition self state_data with
  | Raise e => Raise e
  | Ret b =>
      if negb b
      then _raise_guard_error (base self) "Condition failed" state_data
             event None
      else Ret tt
  end.

(** [ConditionGuard.check]: the [except Exception as e] clause wraps every
    instance of [Exception] that the [try] block raised, the guard's own
    "Condition failed" error included if its class derives from [Exception];
    anything else passes through. *)
Definition check (self : ConditionGuard) (event : Event)
    (state_data : PyValue) : Res bool :=
  match check_try self event state_data with
  | Raise e =>
      if exn_is_Exception e
      then _raise_guard_error (base self)
             ("Condition evaluation error: " +:+ exn_str e) state_data event
             (Some e)
      else Raise e
  | Ret _ => Ret true
  end.

(** The [for key in self.required_keys] loop of [KeyExistsGuard.check] and
    the [return True] after it. *)
Fixpoint check_required (self : GuardBase) (event : Event)
    (state_data : PyValue) (keys : list string) : Res bool :=
  match keys with
  | [] => Ret true
  | key :: keys' =>
      if negb (has_key key state_data)
      then _raise_guard_error self ("Missing required key: " +:+ key)
             state_data event None
      else check_required self event state_data keys'
  end.

(** [KeyExistsGuard.check]. *)
Definition KeyExistsGuard_check (self : KeyExistsGuard) (event : Event)
    (state_data : PyValue) : Res bool :=
  if negb (is_dict state_data)
  then _raise_guard_error (key_base self) "state_data must be a dictionary"
         state_data event None
  else check_required (key_base self) event state_data (required_keys self).

(** The [try] block of [AsyncConditionGuard.check]. *)
Definition async_check_try (self : AsyncConditionGuard) (event : Event)
    (state_data : PyValue) : Res unit :=
  match async_condition self state_data with
  | Raise e => Raise e
  | Ret result =>
      if negb result
      then _raise_guard_error (async_base self) "Async condition failed"
             state_data event None
      else Ret tt
  end.

(** [AsyncConditionGuard.check], with the same [except Exception as e]. *)
Definition async_check (self : AsyncConditionGuard) (event : Event)
    (state_data : PyValue) : Res bool :=
  match async_check_try self event state_data with
  | Raise e =>
      if exn_is_Exception e
      then _raise_guard_error (async_base self)
             ("Async condition evaluation error: " +:+ exn_str e) state_data
             event (Some e)
      else Raise e
  | Ret _ => Ret true
  end.

End WithErrors.

(** A [GuardEvaluationError] class that prints the bare message, derives
    from [Exception] and leaves truth alone, to run the guards on. *)
Definition plain_errors : GuardErrorClass :=
  mkGuardErrorClass (fun message _ _ _ => message) true true.

End Guards.

(** ** hsm/runtime/async_support.py: AsyncEventQueue *)

Module Queue.

(** [asyncio.Queue()] is built with the default [maxsize=0]: it is unbounded
    and holds its items in arrival order. *)
Record AsyncEventQueue : Type := mkAsyncEventQueue {
  _priority_mode : bool;
  _queue : list Event
}.

(** [AsyncEventQueue.__init__(priority)]. *)
Definition new (priority : bool) : AsyncEventQueue :=
  mkAsyncEventQueue priority [].

(** [asyncio.Queue.put] on an unbounded queue: the item goes to the back and
    the call never waits. *)
Definition Queue_put (item : Event) (items : list Event) : list Event :=
  items ++ [item].

(** [asyncio.Queue.get]: the item at the front, or [None] when the queue is
    empty and the getter has to wait. *)
Definition Queue_get (items : list Event) : option (Event * list Event) :=
  match items with
  | [] => None
  | item :: items' => Some (item, items')
  end.

(** [asyncio.wait_for(self._queue.get(), timeout=0.1)] with no producer
    running during the wait: a getter that has to wait is cancelled when the
    timeout elapses and [asyncio.TimeoutError] is raised. *)
Definition TimeoutError : exn := PyException "TimeoutError" "" None.

Definition wait_for_get (items : list Event) : Res Event * list Event :=
  match Queue_get items with
  | Some (item, items') => (Ret item, items')
  | None => (Raise TimeoutError, items)
  end.

(** [AsyncEventQueue.enqueue]. *)
Definition enqueue (event : Event) (self : AsyncEventQueue)
  : AsyncEventQueue :=
  mkAsyncEventQueue (_priority_mode self) (Queue_put event (_queue self)).

(** [AsyncEventQueue.dequeue]: the result is [Optional[Event]]. *)
Definition dequeue (self : AsyncEventQueue)
  : option Event * AsyncEventQueue :=
  match wait_for_get (_queue self) with
  | (Ret event, items') =>
      (Some event, mkAsyncEventQueue (_priority_mode self) items')
  | (Raise _, items') =>
      (None, mkAsyncEventQueue (_priority_mode self) items')
  end.

(** [AsyncEventQueue.clear]: [get] until [empty()]; one round per item. *)
Fixpoint drain (items : list Event) : list Event :=
  match items with
  | [] => []
  | _ :: items' => drain items'
  end.

Definition clear (self : AsyncEventQueue) : AsyncEventQueue :=
  mkAsyncEventQueue (_priority_mode self) (drain (_queue self)).

Definition priority_mode (self : AsyncEventQueue) : bool :=
  _priority_mode self.

(** A client's use of the queue: a sequence of calls. *)
Inductive Op : Type :=
| Enqueue (event : Event)
| Dequeue
| Clear.

(** Runs the calls in order and collects what every [dequeue] returned. *)
Fixpoint run (ops : list Op) (q : AsyncEventQueue)
  : list (option Event) * AsyncEventQueue :=
  match ops with
  | [] => ([], q)
  | Enqueue event :: ops' => run ops' (enqueue event q)
  | Dequeue :: ops' =>
      let (r, q') := dequeue q in
      let (rs, q'') := run ops' q' in
      (r :: rs, q'')
  | Clear :: ops' => run ops' (clear q)
  end.

(** The events of the [enqueue] calls, in call order. *)
Fixpoint enqueued (ops : list Op) : list Event :=
  match ops with
  | [] => []
  | Enqueue event :: ops' => event :: enqueued ops'
  | _ :: ops' => enqueued ops'
  end.

Definition is_Clear (op : Op) : bool :=
  match op with
  | Clear => true
  | _ => false
  end.

(** The events of the successful dequeues, in call order. *)
Definition successes (results : list (option Event)) : list Event :=
  omap id results.

End Queue.

(** ** hsm/runtime/async_support.py: AsyncStateMachine *)

(** [sorted(l, key=key, reverse=True)] on integer keys.  Python's sort is
    stable, also with [reverse=True]: items with equal keys keep the order
    they have in [l].  Every stable sort returns the same list
    ([stable_sort_unique] below); this one inserts from the right. *)
Fixpoint insert_reverse {A : Type} (key : A -> Z) (x : A) (l : list A)
  : list A :=
  match l with
  | [] => [x]
  | y :: l' =>
      if key x <? key y then y :: insert_reverse key x l' else x :: y :: l'
  end.

Fixpoint sorted_reverse {A : Type} (key : A -> Z) (l : list A) : list A :=
  match l with
  | [] => []
  | x :: l' => insert_reverse key x (sorted_reverse key l')
  end.

Section Machine.

(** Everything outside the machine that user code (guards, actions, state
    behaviors, hooks) reads and writes. *)
Context {W : Type}.

(** A user callback that returns nothing: it updates the world and either
    returns ([None]) or raises. *)
Definition Callback : Type := W -> option exn * W.

(** Modelled from the spec: [State] of [hsm/core/states.py], whose class is
    not among the sources: "identity plus on-enter/on-exit hooks".  [name] is
    the identity that [==] compares. *)
Record State : Type := mkState {
  name : string;
  on_enter : Callback;
  on_exit : Callback
}.

Definition State_eqb (a b : State) : bool := String.eqb (name a) (name b).

(** Modelled from the spec: [Transition] of [hsm/core/transitions.py], whose
    class is not among the sources: "source state, target state, ordered
    guards, ordered actions, integer priority".  [process_event] uses it only
    through these five members; guards and actions are user code. *)
Record Transition : Type := mkTransition {
  source : State;
  target : State;
  get_priority : Z;
  evaluate_guards : Event -> W -> Res bool * W;
  execute_actions : Event -> Callback
}.

(** An observer, with the three callbacks of the hook contract. *)
Record HookProtocol : Type := mkHook {
  hook_on_enter : State -> Callback;
  hook_on_exit : State -> Callback;
  hook_on_error : exn -> Callback
}.

(** [HookManager] of [hsm/core/hooks.py], whose class is not among the
    sources: the three methods [process_event] calls, whatever they do. *)
Record HookManager : Type := mkHookManager {
  execute_on_enter : State -> Callback;
  execute_on_exit : State -> Callback;
  execute_on_error : exn -> Callback
}.

(** Calls the callbacks in order; the first one that raises ends the round. *)
Fixpoint fan_out (callbacks : list Callback) : Callback :=
  fun w =>
    match callbacks with
    | [] => (None, w)
    | cb :: callbacks' =>
        match cb w with
        | (None, w') => fan_out callbacks' w'
        | (Some e, w') => (Some e, w')
        end
    end.

(** Modelled from the spec: [HookManager(hooks)], the "fan-out dispatcher for
    enter/exit/error observer callbacks". *)
Definition HookManager_new (hooks : list HookProtocol) : HookManager :=
  mkHookManager
    (fun st => fan_out (map (fun h => hook_on_enter h st) hooks))
    (fun st => fan_out (map (fun h => hook_on_exit h st) hooks))
    (fun e => fan_out (map (fun h => hook_on_error h e) hooks)).

(** Modelled from the spec: [_StateMachineContext] of
    [hsm/core/state_machine.py], whose class is not among the sources: the
    "current state" cursor and the "transition table", kept in registration
    order. *)
Record _StateMachineContext : Type := mkContext {
  _current_state : State;
  _transitions : list Transition
}.

Definition get_current_state (ctx : _StateMachineContext) : State :=
  _current_state ctx.

Definition get_transitions (ctx : _StateMachineContext) : list Transition :=
  _transitions ctx.

Definition ctx_set_current_state (st : State) (ctx : _StateMachineContext)
  : _StateMachineContext :=
  mkContext st (_transitions ctx).

Definition ctx_add_transition (t : Transition) (ctx : _StateMachineContext)
  : _StateMachineContext :=
  mkContext (_current_state ctx) (_transitions ctx ++ [t]).

(** [AsyncStateMachine].  [_lock] is true while the [_AsyncLock] is held. *)
Record AsyncStateMachine : Type := mkMachine {
  _context : _StateMachineContext;
  _hooks : HookManager;
  _lock : bool;
  _started : bool;
  _stopped : bool
}.

(** [AsyncStateMachine.__init__(initial_state, hooks=hooks)]. *)
Definition AsyncStateMachine_new (initial_state : State)
    (hooks : list HookProtocol) : AsyncStateMachine :=
  mkMachine (mkContext initial_state []) (HookManager_new hooks)
    false false false.

(** [AsyncStateMachine.add_transition]. *)
Definition add_transition (t : Transition) (self : AsyncStateMachine)
  : AsyncStateMachine :=
  mkMachine (ctx_add_transition t (_context self)) (_hooks self)
    (_lock self) (_started self) (_stopped self).

(** The calls [process_event] makes, recorded as it makes them. *)
Inductive Call : Type :=
| CallGuards (t : Transition) (event : Event)
| CallHookExit (st : State)
| CallStateExit (st : State)
| CallActions (t : Transition) (event : Event)
| CallSetCurrent (st : State)
| CallStateEnter (st : State)
| CallHookEnter (st : State)
| CallHookError (e : exn).

(** The machine, the world of the user code, and the calls made so far. *)
Record Sys : Type := mkSys {
  machine : AsyncStateMachine;
  world : W;
  calls : list Call
}.

(** How a coroutine of the machine ends: it returns, it raises, or it is
    parked on an [await] that does not complete (the lock is held by another
    task). *)
Inductive Outcome (A : Type) : Type :=
| Returns (a : A)
| Raises (e : exn)
| Parked.
Arguments Returns {A} a.
Arguments Raises {A} e.
Arguments Parked {A}.

Definition M (A : Type) : Type := Sys -> Outcome A * Sys.

Definition ret {A : Type} (a : A) : M A := fun s => (Returns a, s).

Definition bind {A B : Type} (c : M A) (k : A -> M B) : M B :=
  fun s =>
    match c s with
    | (Returns a, s') => k a s'
    | (Raises e, s') => (Raises e, s')
    | (Parked, s') => (Parked, s')
    end.

(** [try: body except Exception as e: handler e]: an exception that is not
    an instance of [Exception] is not caught. *)
Definition try_except {A : Type} (body : M A) (handler : exn -> M A) : M A :=
  fun s =>
    match body s with
    | (Raises e, s') =>
        if exn_is_Exception e then handler e s' else (Raises e, s')
    | r => r
    end.

(** [try: body finally: final]. *)
Definition try_finally {A : Type} (body : M A) (final : M unit) : M A :=
  fun s =>
    match body s with
    | (Parked, s') => (Parked, s')
    | (r, s') =>
        match final s' with
        | (Returns _, s'') => (r, s'')
        | (Raises e, s'') => (Raises e, s'')
        | (Parked, s'') => (Parked, s'')
        end
    end.

End Machine.

Arguments Returns {A} a.
Arguments Raises {A} e.
Arguments Parked {A}.
Arguments Callback : clear implicits.
Arguments State : clear implicits.
Arguments Transition : clear implicits.
Arguments HookProtocol : clear implicits.
Arguments HookManager : clear implicits.
Arguments _StateMachineContext : clear implicits.
Arguments AsyncStateMachine : clear implicits.
Arguments Call : clear implicits.
Arguments Sys : clear implicits.
Arguments M : clear implicits.

Declare Scope machine_scope.
Delimit Scope machine_scope with machine.
Notation "x <- c ;; k" := (bind c (fun x => k))
  (at level 100, c at next level, right associativity) : machine_scope.
Notation "c ;; k" := (bind c (fun _ => k))
  (at level 100, right associativity) : machine_scope.

Section ProcessEvent.

Context {W : Type}.
Local Open Scope machine_scope.

Definition with_machine (m : AsyncStateMachine W) (s : Sys W) : Sys W :=
  mkSys m (world s) (calls s).

(** The [current_state] property: [self._context.get_current_state()]. *)
Definition current_state : M W (State W) :=
  fun s => (Returns (get_current_state (_context (machine s))), s).

Definition hooks : M W (HookManager W) :=
  fun s => (Returns (_hooks (machine s)), s).

Definition record (c : Call W) : M W unit :=
  fun s => (Returns tt, mkSys (machine s) (world s) (calls s ++ [c])).

(** Runs user code on the world; the machine is out of its reach. *)
Definition run_callback (cb : Callback W) : M W unit :=
  fun s =>
    let (r, w') := cb (world s) in
    (match r with None => Returns tt | Some e => Raises e end,
     mkSys (machine s) w' (calls s)).

Definition invoke (c : Call W) (cb : Callback W) : M W unit :=
  record c ;; run_callback cb.

(** [t.evaluate_guards(event)]. *)
Definition call_evaluate_guards (t : Transition W) (event : Event)
  : M W bool :=
  record (CallGuards t event) ;;
  fun s =>
    let (r, w') := evaluate_guards t event (world s) in
    (match r with Ret b => Returns b | Raise e => Raises e end,
     mkSys (machine s) w' (calls s)).

(** [self._context.set_current_state(st)]. *)
Definition set_current_state (st : State W) : M W unit :=
  record (CallSetCurrent st) ;;
  fun s =>
    let m := machine s in
    (Returns tt,
     with_machine
       (mkMachine (ctx_set_current_state st (_context m)) (_hooks m)
          (_lock m) (_started m) (_stopped m)) s).

Definition set_lock (held : bool) (s : Sys W) : Sys W :=
  let m := machine s in
  with_machine
    (mkMachine (_context m) (_hooks m) held (_started m) (_stopped m)) s.

(** [await self._lock.acquire()]: immediate when the lock is free. *)
Definition lock_acquire : M W unit :=
  fun s =>
    if _lock (machine s) then (Parked, s) else (Returns tt, set_lock true s).

(** [self._lock.release()]; [asyncio.Lock.release] raises [RuntimeError] on a
    lock that is not held. *)
Definition lock_release : M W unit :=
  fun s =>
    if _lock (machine s) then (Returns tt, set_lock false s)
    else (Raises (PyException "RuntimeError" "Lock is not acquired." None), s).

(** [[t for t in transitions
       if t.source == self.current_state and t.evaluate_guards(event)]]:
    the guards of a transition are evaluated only when its source matches,
    and a guard that raises ends the comprehension. *)
Fixpoint valid_transitions (event : Event) (transitions : list (Transition W))
  : M W (list (Transition W)) :=
  match transitions with
  | [] => ret []
  | t :: transitions' =>
      cur <- current_state ;;
      keep <- (if State_eqb (source t) cur
               then call_evaluate_guards t event
               else ret false) ;;
      rest <- valid_transitions event transitions' ;;
      ret (if keep then t :: rest else rest)
  end.

(** [self._context.get_transitions()]. *)
Definition context_get_transitions : M W (list (Transition W)) :=
  fun s => (Returns (get_transitions (_context (machine s))), s).

(** [l[0]]. *)
Definition item0 {A : Type} (l : list A) : M W A :=
  match l with
  | [] => fun s =>
      (Raises (PyException "IndexError" "list index out of range" None), s)
  | x :: _ => ret x
  end.

(** [sorted(valid_transitions, key=lambda t: t.get_priority(),
    reverse=True)[0]]. *)
Definition choose (valid : list (Transition W)) : M W (Transition W) :=
  item0 (sorted_reverse get_priority valid).

(** Lines 129-131 of [process_event]: what runs before the cursor moves. *)
Definition leave (chosen : Transition W) (event : Event) : M W unit :=
  h <- hooks ;;
  cur <- current_state ;;
  invoke (CallHookExit cur) (execute_on_exit h cur) ;;
  cur <- current_state ;;
  invoke (CallStateExit cur) (on_exit cur) ;;
  invoke (CallActions chosen event) (execute_actions chosen event).

(** Lines 132-134 of [process_event]: the cursor moves, then the new current
    state is entered. *)
Definition arrive (chosen : Transition W) : M W unit :=
  set_current_state (target chosen) ;;
  cur <- current_state ;;
  invoke (CallStateEnter cur) (on_enter cur) ;;
  h <- hooks ;;
  cur <- current_state ;;
  invoke (CallHookEnter cur) (execute_on_enter h cur).

(** Lines 128-134. *)
Definition fire (valid : list (Transition W)) (event : Event) : M W unit :=
  chosen <- choose valid ;;
  leave chosen event ;;
  arrive chosen.

(** The [try] block of [process_event], lines 124-134. *)
Definition process_event_try (event : Event) : M W unit :=
  transitions <- context_get_transitions ;;
  valid <- valid_transitions event transitions ;;
  match valid with
  | [] => ret tt
  | _ :: _ => fire valid event
  end.

(** The [except Exception as e] clause, line 136. *)
Definition process_event_except (e : exn) : M W unit :=
  h <- hooks ;;
  invoke (CallHookError e) (execute_on_error h e).

(** The statement [try: body / except Exception as e: ... / finally:
    self._lock.release()] of lines 123-138, around its [try] block. *)
Definition guarded (body : M W unit) : M W unit :=
  try_finally (try_except body process_event_except) lock_release.

(** [AsyncStateMachine.process_event]. *)
Definition process_event (event : Event) : M W unit :=
  fun s =>
    if negb (_started (machine s)) || _stopped (machine s)
    then (Returns tt, s)
    else (lock_acquire ;; guarded (process_event_try event)) s.

(** The machine's current state, read from outside. *)
Definition cursor (s : Sys W) : State W :=
  get_current_state (_context (machine s)).

End ProcessEvent.

(** ** hsm/runtime/async_support.py: start, stop and the processing loop *)

Section Lifecycle.

Context {W : Type}.
Local Open Scope machine_scope.

(** A method of [_StateMachineContext] of which the sources have only the
    call ([start()], [stop()]): it may update the context and the world, and
    it returns or raises. *)
Definition ContextMethod : Type :=
  _StateMachineContext W -> W -> option exn * (_StateMachineContext W * W).

(** What [start] and [stop] call that is not among the sources:
    [self.validator.validate_state_machine], which is handed the machine, and
    the two methods of the context. *)
Record Collaborators : Type := mkCollaborators {
  validate_state_machine : AsyncStateMachine W -> Callback W;
  context_start : ContextMethod;
  context_stop : ContextMethod
}.

(** [self.validator.validate_state_machine(self)]; [self.validator] is
    [validator or Validator()], an object, so [if self.validator:] holds. *)
Definition call_validator (env : Collaborators) : M W unit :=
  fun s => run_callback (validate_state_machine env (machine s)) s.

(** [self._context.start()] and [self._context.stop()]. *)
Definition call_context (method : ContextMethod) : M W unit :=
  fun s =>
    let m := machine s in
    match method (_context m) (world s) with
    | (r, (ctx', w')) =>
        (match r with None => Returns tt | Some e => Raises e end,
         mkSys (mkMachine ctx' (_hooks m) (_lock m) (_started m) (_stopped m))
           w' (calls s))
    end.

(** [self._started = True]. *)
Definition set_started : M W unit :=
  fun s =>
    let m := machine s in
    (Returns tt,
     with_machine
       (mkMachine (_context m) (_hooks m) (_lock m) true (_stopped m)) s).

(** [self._stopped = True]. *)
Definition set_stopped : M W unit :=
  fun s =>
    let m := machine s in
    (Returns tt,
     with_machine
       (mkMachine (_context m) (_hooks m) (_lock m) (_started m) true) s).

(** The [try] block of [start], lines 111-115. *)
Definition start_try (env : Collaborators) : M W unit :=
  call_validator env ;;
  call_context (context_start env) ;;
  h <- hooks ;;
  cur <- current_state ;;
  invoke (CallHookEnter cur) (execute_on_enter h cur) ;;
  set_started.

(** [AsyncStateMachine.start]: there is no [except] clause. *)
Definition start (env : Collaborators) : M W unit :=
  fun s =>
    if _started (machine s) then (Returns tt, s)
    else (lock_acquire ;; try_finally (start_try env) lock_release) s.

(** The [try] block of [stop], lines 145-147. *)
Definition stop_try (env : Collaborators) : M W unit :=
  h <- hooks ;;
  cur <- current_state ;;
  invoke (CallHookExit cur) (execute_on_exit h cur) ;;
  call_context (context_stop env) ;;
  set_stopped.

(** [AsyncStateMachine.stop]: there is no [except] clause. *)
Definition stop (env : Collaborators) : M W unit :=
  fun s =>
    if _stopped (machine s) then (Returns tt, s)
    else (lock_acquire ;; try_finally (stop_try env) lock_release) s.

(** [add_transition] on the machine of a system. *)
Definition sys_add_transition (t : Transition W) (s : Sys W) : Sys W :=
  with_machine (add_transition t (machine s)) s.

(** A client's use of one machine: a sequence of calls, each run to its
    end before the next. *)
Inductive Api : Type :=
| ApiStart
| ApiStop
| ApiProcess (event : Event)
| ApiAdd (t : Transition W).

Definition api_call (env : Collaborators) (op : Api) (s : Sys W)
  : Outcome unit * Sys W :=
  match op with
  | ApiStart => start env s
  | ApiStop => stop env s
  | ApiProcess event => process_event event s
  | ApiAdd t => (Returns tt, sys_add_transition t s)
  end.

(** The calls in order, whatever each returns or raises. *)
Fixpoint api_run (env : Collaborators) (ops : list Api) (s : Sys W) : Sys W :=
  match ops with
  | [] => s
  | op :: ops' => api_run env ops' (api_call env op s).2
  end.

(** [process_event] on a list of events, one after the other, whatever each
    call returns or raises. *)
Definition process_all (s : Sys W) (events : list Event) : Sys W :=
  foldl (fun s0 event => (process_event event s0).2) s events.

(** [_AsyncEventProcessingLoop]: the machine (with its world), the queue and
    the [_running] flag. *)
Record Loop : Type := mkLoop {
  loop_sys : Sys W;
  loop_queue : Queue.AsyncEventQueue;
  _running : bool
}.

(** One round of the [while] body of [start_loop], lines 180-185.  An event
    object is true in [if event:], [None] is false; [asyncio.sleep(0.01)]
    changes nothing here. *)
Definition loop_round (l : Loop) : Outcome unit * Loop :=
  match Queue.dequeue (loop_queue l) with
  | (Some event, q') =>
      let (r, s') := process_event event (loop_sys l) in
      (r, mkLoop s' q' (_running l))
  | (None, q') => (Returns tt, mkLoop (loop_sys l) q' (_running l))
  end.

(** How far the [while self._running] loop has come after at most [n]
    rounds, with no other task running in between: it has left the loop
    ([_running] was false at a test), it is still looping, or a round raised
    or parked and the coroutine ended there. *)
Inductive LoopStatus : Type :=
| Looping
| Left
| Ended (r : Outcome unit).

Fixpoint loop_rounds (n : nat) (l : Loop) : LoopStatus * Loop :=
  if negb (_running l) then (Left, l)
  else
    match n with
    | O => (Looping, l)
    | S n' =>
        match loop_round l with
        | (Returns _, l') => loop_rounds n' l'
        | (r, l') => (Ended r, l')
        end
    end.

(** [start_loop], up to [n] rounds of its loop. *)
Definition start_loop (env : Collaborators) (n : nat) (l : Loop)
  : LoopStatus * Loop :=
  let l1 := mkLoop (loop_sys l) (loop_queue l) true in
  match start env (loop_sys l1) with
  | (Returns _, s') => loop_rounds n (mkLoop s' (loop_queue l1) true)
  | (r, s') => (Ended r, mkLoop s' (loop_queue l1) true)
  end.

(** [stop_loop]. *)
Definition stop_loop (env : Collaborators) (l : Loop) : Outcome unit * Loop :=
  let (r, s') := stop env (loop_sys l) in
  (r, mkLoop s' (loop_queue l) false).

End Lifecycle.

Arguments ContextMethod : clear implicits.
Arguments Collaborators : clear implicits.
Arguments Api : clear implicits.
Arguments Loop : clear implicits.

(** ** User code that keeps to ordinary exceptions *)

Section UserCode.

Context {W : Type}.

(** A callback that raises nothing but instances of [Exception]. *)
Definition raises_Exceptions (cb : Callback W) : Prop :=
  forall w e, (cb w).1 = Some e -> exn_is_Exception e = true.

Definition state_raises_Exceptions (st : State W) : Prop :=
  raises_Exceptions (on_enter st) /\ raises_Exceptions (on_exit st).

(** The guards and actions of a transition and the behaviors of its target
    raise nothing but instances of [Exception]. *)
Definition transition_raises_Exceptions (t : Transition W) : Prop :=
  state_raises_Exceptions (target t)
  /\ (forall event, raises_Exceptions (execute_actions t event))
  /\ (forall event w e w',
        evaluate_guards t event w = (Raise e, w') ->
        exn_is_Exception e = true).

(** A machine whose user code (current state, registered transitions, enter
    and exit hooks) raises nothing but instances of [Exception], and whose
    error hooks do not raise. *)
Definition ordinary_user_code (m : AsyncStateMachine W) : Prop :=
  state_raises_Exceptions (get_current_state (_context m))
  /\ Forall transition_raises_Exceptions (get_transitions (_context m))
  /\ (forall st,
        raises_Exceptions (execute_on_enter (_hooks m) st)
        /\ raises_Exceptions (execute_on_exit (_hooks m) st))
  /\ (forall e w, (execute_on_error (_hooks m) e w).1 = None).

End UserCode.

(** ** The timer state machine and hsm/tests/unit/test_timers.py *)

Module Timers.

Inductive TimerState : Type := IDLE | RUNNING | CANCELLED | COMPLETED | ERROR.

Definition TimerState_eqb (a b : TimerState) : bool :=
  match a, b with
  | IDLE, IDLE | RUNNING, RUNNING | CANCELLED, CANCELLED
  | COMPLETED, COMPLETED | ERROR, ERROR => true
  | _, _ => false
  end.

(** Modelled from the spec: the [Timer] class of [hsm/runtime/timers.py],
    which is not among the sources (its unit tests are): "id, callback, state,
    armed event, deadline", the deadline kept as [start_time] and [duration],
    in seconds.  [_state] and [_event] are the attributes the tests assign. *)
Record Timer : Type := mkTimer {
  _id : string;
  _callback : string -> Event -> option exn;
  _state : TimerState;
  _event : option Event;
  _duration : option Q;
  _start_time : option Q
}.

(** [Timer(timer_id, callback)]: "Initial state: IDLE". *)
Definition Timer_new (timer_id : string)
    (callback : string -> Event -> option exn) : Timer :=
  mkTimer timer_id callback IDLE None None None.

(** [timer._state = st], as the tests write it. *)
Definition set_state (st : TimerState) (self : Timer) : Timer :=
  mkTimer (_id self) (_callback self) st (_event self) (_duration self)
    (_start_time self).

Definition ValueError (msg : string) : exn := PyException "ValueError" msg None.

Definition TimerSchedulingError (msg : string) : exn :=
  PyException "TimerSchedulingError" msg None.

(** The states [schedule_timeout] is valid from, in the spec's words: "valid
    from IDLE, CANCELLED, COMPLETED, ERROR". *)
Definition valid_from (st : TimerState) : bool :=
  match st with
  | IDLE | CANCELLED | COMPLETED | ERROR => true
  | RUNNING => false
  end.

(** Modelled from the spec: [Timer.schedule_timeout(duration, event)], "valid
    from IDLE, CANCELLED, COMPLETED, ERROR -> RUNNING.  Fails with a domain
    validation error if duration is negative.  Fails with a
    scheduling-conflict error if the timer is currently RUNNING [...]  On
    success: records start_time, duration, arms the event".  A failed call
    leaves the timer as it was.  [now] is the clock reading. *)
Definition schedule_timeout (now : Q) (duration : Q) (event : Event)
    (self : Timer) : Res unit * Timer :=
  if negb (Qle_bool 0 duration)
  then (Raise (ValueError "Timer duration cannot be negative"), self)
  else if negb (valid_from (_state self))
  then (Raise (TimerSchedulingError "Timer is already running"), self)
  else (Ret tt,
        mkTimer (_id self) (_callback self) RUNNING (Some event)
          (Some duration) (Some now)).

(** Modelled from the spec: deadline expiry.  "if still RUNNING with the same
    armed event, invoke the callback with (timer_id, event).  If the callback
    completes without raising, transition to COMPLETED [...]  If the callback
    raises, transition to ERROR"; both clear duration and start_time. *)
Definition expire (self : Timer) : Timer :=
  match _state self, _event self with
  | RUNNING, Some event =>
      match _callback self (_id self) event with
      | None => mkTimer (_id self) (_callback self) COMPLETED (_event self)
                  None None
      | Some _ => mkTimer (_id self) (_callback self) ERROR (_event self)
                    None None
      end
  | _, _ => self
  end.

(** Modelled from the spec: [Timer.shutdown()], which "unconditionally cancels
    any pending deadline and forces the timer to IDLE, clearing all
    scheduling fields, regardless of prior state (including ERROR)". *)
Definition shutdown (self : Timer) : Timer :=
  mkTimer (_id self) (_callback self) IDLE None None None.

(** [timer.get_info().state]. *)
Definition get_info_state (self : Timer) : TimerState := _state self.

(** [with pytest.raises(cls)]: the block raised an instance of [cls]. *)
Definition raises {A : Type} (cls : string) (r : Res A) : bool :=
  match r with
  | Raise (PyRaised c _ _) => String.eqb (class_name c) cls
  | _ => false
  end.

(** [test_timer_validate_schedule_state] of [test_timers.py], lines 639-654,
    run against an implementation of [schedule_timeout]: true when the test
    passes. *)
Definition test_timer_validate_schedule_state
    (schedule_timeout : Q -> Event -> Timer -> Res unit * Timer)
    (timer : Timer) (event : Event) : bool :=
  match schedule_timeout (1 # 10)%Q event timer with
  | (Raise _, _) => false
  | (Ret _, timer) =>
      let (r, timer) := schedule_timeout (1 # 10)%Q event timer in
      raises "TimerSchedulingError" r &&
      let timer := set_state ERROR timer in
      let (r, timer) := schedule_timeout (1 # 10)%Q event timer in
      raises "TimerSchedulingError" r &&
      let timer := set_state CANCELLED timer in
      match schedule_timeout (1 # 10)%Q event timer with
      | (Raise _, _) => false
      | (Ret _, timer) => TimerState_eqb (get_info_state timer) RUNNING
      end
  end.

(** The fixtures of [test_timers.py]: [event] and [timer]. *)
Definition fixture_event : Event :=
  mkEvent "test_event" (VDict [("test", VStr "data")]) 1.

Definition fixture_timer : Timer :=
  Timer_new "test_timer" (fun _ _ => None).

(** The callback of [test_timer_callback_error_handling]. *)
Definition error_callback (timer_id : string) (evt : Event) : option exn :=
  Some (PyException "RuntimeError" "Callback error" None).

End Timers.

(** ** Machines to run

    A world that is a log of what the user code did, and the machine of the
    spec's scenario: states A and B, a transition from A to B guarded by
    "always true", priority 0. *)

Module Demo.

Definition Log : Type := list string.

Definition say (msg : string) : Callback Log := fun w => (None, w ++ [msg]).

Definition fail (msg : string) : Callback Log :=
  fun w => (Some (PyException "RuntimeError" msg None), w ++ [msg]).

Definition A : State Log := mkState "A" (say "A.on_enter") (say "A.on_exit").
Definition B : State Log := mkState "B" (say "B.on_enter") (say "B.on_exit").
Definition C : State Log := mkState "C" (say "C.on_enter") (say "C.on_exit").

Definition always_true (event : Event) (w : Log) : Res bool * Log :=
  (Ret true, w).

Definition observer : HookProtocol Log :=
  mkHook (fun st => say ("hook.on_enter " +:+ name st))
    (fun st => say ("hook.on_exit " +:+ name st))
    (fun e => say ("hook.on_error " +:+ exn_str e)).

(** An observer whose [on_error] raises. *)
Definition brittle_observer : HookProtocol Log :=
  mkHook (fun st => say ("hook.on_enter " +:+ name st))
    (fun st => say ("hook.on_exit " +:+ name st))
    (fun e => fail "on_error failed").

Definition A_to_B : Transition Log :=
  mkTransition A B 0 always_true (fun _ => say "A_to_B actions").

Definition A_to_C_first : Transition Log :=
  mkTransition A C 5 always_true (fun _ => say "A_to_C_first actions").

Definition A_to_B_second : Transition Log :=
  mkTransition A B 5 always_true (fun _ => say "A_to_B_second actions").

Definition A_to_B_failing : Transition Log :=
  mkTransition A B 0 always_true (fun _ => fail "action failed").

(** A machine as [start()] leaves it: [_started] is set. *)
Definition started (m : AsyncStateMachine Log) : AsyncStateMachine Log :=
  mkMachine (_context m) (_hooks m) (_lock m) true (_stopped m).

Definition boot (m : AsyncStateMachine Log) : Sys Log := mkSys m [] [].

Definition scenario : Sys Log :=
  boot (started (add_transition A_to_B (AsyncStateMachine_new A [observer]))).

Definition not_started : Sys Log :=
  boot (add_transition A_to_B (AsyncStateMachine_new A [observer])).

(** Three transitions out of A: priority 0, then two of priority 5. *)
Definition contested : Sys Log :=
  boot (started
    (add_transition A_to_B_second
      (add_transition A_to_C_first
        (add_transition A_to_B (AsyncStateMachine_new A [observer]))))).

Definition failing : Sys Log :=
  boot (started
    (add_transition A_to_B_failing (AsyncStateMachine_new A [observer]))).

Definition brittle : Sys Log :=
  boot (started
    (add_transition A_to_B_failing
      (AsyncStateMachine_new A [brittle_observer]))).

Definition ping : Event := mkEvent "ping" VNone 0.

End Demo.

(** Collaborators and loops to run [start], [stop] and the processing loop
    on the machines of [Demo]. *)

Module DemoLifecycle.

Import Demo.

Definition context_noop : ContextMethod Log :=
  fun ctx w => (None, (ctx, w)).

(** A validator that accepts every machine. *)
Definition lenient : Collaborators Log :=
  mkCollaborators (fun _ => say "validated") context_noop context_noop.

(** A validator that rejects every machine. *)
Definition strict : Collaborators Log :=
  mkCollaborators (fun _ => fail "invalid machine") context_noop context_noop.

Definition fresh : Sys Log :=
  boot (add_transition A_to_B (AsyncStateMachine_new A [observer])).

(** [fresh] with an observer whose [on_exit] raises. *)
Definition clingy_observer : HookProtocol Log :=
  mkHook (fun st => say ("hook.on_enter " +:+ name st))
    (fun st => fail "on_exit failed")
    (fun e => say ("hook.on_error " +:+ exn_str e)).

Definition clingy : Sys Log :=
  boot (add_transition A_to_B (AsyncStateMachine_new A [clingy_observer])).

Definition B_to_A : Transition Log :=
  mkTransition B A 0 always_true (fun _ => say "B_to_A actions").

(** A to B and back. *)
Definition shuttle : Sys Log :=
  boot (started
    (add_transition B_to_A
      (add_transition A_to_B (AsyncStateMachine_new A [observer])))).

Definition pong : Event := mkEvent "pong" VNone 0.

(** A transition into a state whose enter behavior raises. *)
Definition Trap : State Log :=
  mkState "Trap" (fail "Trap.on_enter failed") (say "Trap.on_exit").

Definition A_to_Trap : Transition Log :=
  mkTransition A Trap 0 always_true (fun _ => say "A_to_Trap actions").

Definition trapped : Sys Log :=
  boot (started
    (add_transition A_to_Trap (AsyncStateMachine_new A [observer]))).

(** A guard that raises, registered after a transition that is valid. *)
Definition raising_guard (event : Event) (w : Log) : Res bool * Log :=
  (Raise (PyException "KeyError" "missing" None), w ++ ["guard raised"]).

Definition A_to_C_guarded : Transition Log :=
  mkTransition A C 0 raising_guard (fun _ => say "A_to_C actions").

Definition guarded_badly : Sys Log :=
  boot (started
    (add_transition A_to_C_guarded
      (add_transition A_to_B (AsyncStateMachine_new A [observer])))).

Definition never (event : Event) (w : Log) : Res bool * Log := (Ret false, w).

Definition A_to_B_never : Transition Log :=
  mkTransition A B 0 never (fun _ => say "A_to_B_never actions").

Definition unmatched : Sys Log :=
  boot (started
    (add_transition B_to_A
      (add_transition A_to_B_never (AsyncStateMachine_new A [observer])))).

(** An action that raises [KeyboardInterrupt], which is not an instance of
    [Exception]. *)
Definition interrupt : Callback Log :=
  fun w =>
    (Some (PyBaseException "KeyboardInterrupt" "" None), w ++ ["interrupted"]).

Definition A_to_B_interrupted : Transition Log :=
  mkTransition A B 0 always_true (fun _ => interrupt).

Definition interrupted : Sys Log :=
  boot (started
    (add_transition A_to_B_interrupted (AsyncStateMachine_new A [observer]))).

End DemoLifecycle.

(** * Properties *)

(** ** The stable sort *)

Section SortedReverse.

Context {A : Type} (key : A -> Z).

Lemma insert_reverse_perm (x : A) (l : list A) :
  insert_reverse key x l ≡ₚ x :: l.
Proof.
  induction l as [|y l IH]; simpl; [done|].
  destruct (key x <? key y); [|done].
  rewrite IH. apply Permutation_swap.
Qed.

Lemma sorted_reverse_perm (l : list A) : sorted_reverse key l ≡ₚ l.
Proof.
  induction l as [|x l IH]; simpl; [done|].
  by rewrite insert_reverse_perm, IH.
Qed.

Lemma insert_reverse_sorted (x : A) (l : list A) :
  StronglySorted (fun a b => key b <= key a) l ->
  StronglySorted (fun a b => key b <= key a) (insert_reverse key x l).
Proof.
  induction 1 as [|y l Hl IH Hy]; simpl.
  - repeat constructor.
  - destruct (Z.ltb_spec (key x) (key y)) as [Hlt|Hge].
    + constructor; [done|].
      rewrite insert_reverse_perm. constructor; [lia|done].
    + constructor; [by constructor|].
      constructor; [done|].
      eapply Forall_impl; [exact Hy|]. simpl. intros; lia.
Qed.

Lemma sorted_reverse_sorted (l : list A) :
  StronglySorted (fun a b => key b <= key a) (sorted_reverse key l).
Proof.
  induction l as [|x l IH]; simpl; [constructor|].
  by apply insert_reverse_sorted.
Qed.

(** Inserting [x] in front of a list sorted from high to low leaves the items
    of every key in the order they had. *)
Lemma insert_reverse_stable (k : Z) (x : A) (l : list A) :
  filter (fun y => key y = k) (insert_reverse key x l)
  = filter (fun y => key y = k) (x :: l).
Proof.
  induction l as [|y l IH]; simpl; [done|].
  destruct (Z.ltb_spec (key x) (key y)) as [Hlt|Hge]; [|done].
  rewrite filter_cons, IH, !filter_cons.
  destruct (decide (key y = k)), (decide (key x = k)); try done; lia.
Qed.

Lemma sorted_reverse_stable (k : Z) (l : list A) :
  filter (fun y => key y = k) (sorted_reverse key l)
  = filter (fun y => key y = k) l.
Proof.
  induction l as [|x l IH]; simpl; [done|].
  by rewrite insert_reverse_stable, !filter_cons, IH.
Qed.

(** Two lists sorted from high to low that list the items of every key in the
    same order are the same list: a stable sort has one possible result. *)
Lemma stable_sorted_eq (l1 l2 : list A) :
  StronglySorted (fun a b => key b <= key a) l1 ->
  StronglySorted (fun a b => key b <= key a) l2 ->
  (forall k, filter (fun y => key y = k) l1 = filter (fun y => key y = k) l2) ->
  l1 = l2.
Proof.
  intros H1; revert l2.
  induction H1 as [|x l1 Hs1 IH Hx]; intros l2 H2 Hf.
  - destruct l2 as [|y l2]; [done|].
    specialize (Hf (key y)). rewrite filter_cons in Hf.
    by destruct (decide (key y = key y)).
  - destruct H2 as [|y l2 Hs2 Hy].
    + specialize (Hf (key x)). rewrite filter_cons in Hf.
      by destruct (decide (key x = key x)).
    + assert (Hxy : key x = key y).
      { assert (x ∈ y :: l2) as Hin1.
        { pose proof (Hf (key x)) as E.
          assert (x ∈ filter (fun z => key z = key x) (x :: l1)) as Hin
            by (apply list_elem_of_filter; split; [done|left]).
          rewrite E in Hin. by apply list_elem_of_filter in Hin as [_ ?]. }
        assert (y ∈ x :: l1) as Hin2.
        { pose proof (Hf (key y)) as E.
          assert (y ∈ filter (fun z => key z = key y) (y :: l2)) as Hin
            by (apply list_elem_of_filter; split; [done|left]).
          rewrite <- E in Hin. by apply list_elem_of_filter in Hin as [_ ?]. }
        rewrite Forall_forall in Hx, Hy.
        apply elem_of_cons in Hin1 as [->|Hin1]; [done|].
        apply elem_of_cons in Hin2 as [->|Hin2]; [done|].
        specialize (Hx _ Hin2). specialize (Hy _ Hin1). simpl in *. lia. }
      assert (x = y) as ->.
      { specialize (Hf (key x)). rewrite !filter_cons in Hf.
        destruct (decide (key x = key x)); [|done].
        destruct (decide (key y = key x)); [|congruence].
        congruence. }
      f_equal. apply IH; [done|].
      intros k. specialize (Hf k). rewrite !filter_cons in Hf.
      destruct (decide (key y = k)); congruence.
Qed.

(** Whatever stable algorithm [sorted] runs, its result is
    [sorted_reverse key l]. *)
Lemma stable_sort_unique (l l' : list A) :
  StronglySorted (fun a b => key b <= key a) l' ->
  (forall k, filter (fun y => key y = k) l' = filter (fun y => key y = k) l) ->
  l' = sorted_reverse key l.
Proof.
  intros Hs Hf. apply stable_sorted_eq; [done|apply sorted_reverse_sorted|].
  intros k. by rewrite Hf, sorted_reverse_stable.
Qed.

(** The head of the sorted list is the first item of [l] among those of the
    highest key. *)
Lemma sorted_reverse_head (l : list A) :
  l <> [] ->
  exists x before after rest,
    l = before ++ x :: after
    /\ sorted_reverse key l = x :: rest
    /\ Forall (fun y => key y < key x) before
    /\ Forall (fun y => key y <= key x) after.
Proof.
  induction l as [|a l IH]; [done|]. intros _.
  destruct l as [|b l].
  - exists a, [], [], []. repeat split; constructor.
  - destruct IH as (x & before & after & rest & El & Es & Hb & Ha); [done|].
    change (sorted_reverse key (a :: b :: l))
      with (insert_reverse key a (sorted_reverse key (b :: l))).
    rewrite Es, El. simpl.
    destruct (Z.ltb_spec (key a) (key x)) as [Hlt|Hge].
    + exists x, (a :: before), after, (insert_reverse key a rest).
      repeat split; [|done]. by constructor.
    + exists a, [], (before ++ x :: after), (x :: rest).
      repeat split; [constructor|].
      apply Forall_app. split.
      * eapply Forall_impl; [exact Hb|]. simpl. intros; lia.
      * constructor; [lia|].
        eapply Forall_impl; [exact Ha|]. simpl. intros; lia.
Qed.

End SortedReverse.

(** ** Guards *)

Section GuardFacts.

Import Guards.

Context (errors : GuardErrorClass).

(** What the [except] clause of [check] makes of an instance of [Exception]:
    the cause is kept if the exception is true, dropped if it is false. *)
Lemma check_wraps_Exception (self : ConditionGuard) (event : Event)
    (state_data : PyValue) (e : exn) :
  condition self state_data = Raise e ->
  exn_is_Exception e = true ->
  check errors self event state_data
  = Raise (GuardEvaluationError errors
             ("Condition evaluation error: " +:+ exn_str e)
             (guard_name (base self)) state_data event
             (if exn_truthy e then Some e else None)).
Proof.
  intros Hraise Hexc. unfold check, check_try. rewrite Hraise, Hexc.
  unfold _raise_guard_error. by destruct (exn_truthy e).
Qed.

(** C5, amended: when the user-supplied condition raises an instance [e] of
    [Exception], [ConditionGuard.check] raises a [GuardEvaluationError] that
    carries the guard's name, the [state_data] and the event it was called
    with, and, for an [e] that is true in a boolean context, [e] as its
    cause; an [e] that is not an instance of [Exception] passes through
    unwrapped. *)
Theorem check_wraps_condition_error (self : ConditionGuard) (event : Event)
    (state_data : PyValue) (e : exn) :
  condition self state_data = Raise e ->
  (exn_is_Exception e = true ->
   exists cause,
     check errors self event state_data
     = Raise (GuardEvaluationError errors
                ("Condition evaluation error: " +:+ exn_str e)
                (guard_name (base self)) state_data event cause)
     /\ (exn_truthy e = true -> cause = Some e))
  /\ (exn_is_Exception e = false ->
      check errors self event state_data = Raise e).
Proof.
  intros Hraise. split.
  - intros Hexc. exists (if exn_truthy e then Some e else None).
    split; [by apply check_wraps_Exception|]. by intros ->.
  - intros Hbase. unfold check, check_try. by rewrite Hraise, Hbase.
Qed.

End GuardFacts.

Section GuardRuns.

Import Guards.

Lemma check_wraps_condition_error_witness :
  let boom := PyException "ValueError" "bad counter" None in
  let guard := ConditionGuard_new (fun _ => Raise boom) in
  let data := VDict [("status", VStr "ok")] in
  (exn_is_Exception boom = true ->
   exists cause,
     check plain_errors guard Demo.ping data
     = Raise (GuardEvaluationError plain_errors
                ("Condition evaluation error: " +:+ exn_str boom)
                (guard_name (base guard)) data Demo.ping cause)
     /\ (exn_truthy boom = true -> cause = Some boom))
  /\ (exn_is_Exception boom = false ->
      check plain_errors guard Demo.ping data = Raise boom).
Proof.
  intros boom guard data.
  apply (check_wraps_condition_error plain_errors guard Demo.ping data boom).
  reflexivity.
Defined.

(** C5, as stated, fails: a condition that raises [KeyboardInterrupt], which
    is not an instance of [Exception], is not wrapped: [check] raises the
    [KeyboardInterrupt] itself. *)
Lemma check_wraps_any_exception_counterexample :
  let interrupt := PyBaseException "KeyboardInterrupt" "" None in
  let guard := ConditionGuard_new (fun _ => Raise interrupt) in
  check plain_errors guard Demo.ping (VInt 5) = Raise interrupt
  /\ ~ (forall (errors : GuardErrorClass) (self : ConditionGuard)
           (event : Event) (state_data : PyValue) (e : exn),
          condition self state_data = Raise e ->
          exists message,
            check errors self event state_data
            = Raise (GuardEvaluationError errors message
                       (guard_name (base self)) state_data event (Some e))).
Proof.
  intros interrupt guard. split; [reflexivity|].
  intros Hclaim.
  destruct (Hclaim plain_errors guard Demo.ping (VInt 5) interrupt eq_refl)
    as (message & Hcheck).
  discriminate Hcheck.
Qed.

(** An exception whose class makes its instances false loses its place as
    cause: [if cause:] takes it for no cause. *)
Lemma check_drops_false_cause :
  let hollow := PyRaised (mkExcClass "EmptyBatch" true false) "" None in
  let guard := ConditionGuard_new (fun _ => Raise hollow) in
  check plain_errors guard Demo.ping (VInt 5)
  = Raise (GuardEvaluationError plain_errors "Condition evaluation error: "
             "ConditionGuard" (VInt 5) Demo.ping None).
Proof. reflexivity. Qed.

End GuardRuns.

(** ** The event queue *)

Section QueueFacts.

Import Queue.

Lemma dequeue_nonempty (q : AsyncEventQueue) (event : Event)
    (items : list Event) :
  _queue q = event :: items ->
  dequeue q = (Some event, mkAsyncEventQueue (_priority_mode q) items).
Proof. intros H. unfold dequeue, wait_for_get. by rewrite H. Qed.

(** What has been dequeued, followed by what is still queued, is what was
    queued at the start followed by what has been enqueued. *)
Lemma run_conserves (ops : list Op) (q : AsyncEventQueue) :
  forallb (fun op => negb (is_Clear op)) ops = true ->
  successes (run ops q).1 ++ _queue (run ops q).2 = _queue q ++ enqueued ops.
Proof.
  revert q. induction ops as [|op ops IH]; intros q Hops; simpl.
  - by rewrite app_nil_r.
  - simpl in Hops. apply andb_prop in Hops as [Hop Hops].
    destruct op as [event| |]; [| |done].
    + rewrite IH by done. simpl. unfold Queue_put. by rewrite <- app_assoc.
    + destruct (_queue q) as [|event items] eqn:Eq.
      * unfold dequeue, wait_for_get. rewrite Eq. simpl.
        specialize (IH (mkAsyncEventQueue (_priority_mode q) []) Hops).
        destruct (run ops _) as [rs q']. simpl in *. done.
      * rewrite (dequeue_nonempty q event items Eq).
        specialize (IH (mkAsyncEventQueue (_priority_mode q) items) Hops).
        destruct (run ops _) as [rs q']. simpl in *. by rewrite IH.
Qed.

(** C7: over any sequence of [enqueue] and [dequeue] calls on a new queue,
    events come out in the order they went in: after any such history, the
    next [dequeue] returns the enqueued event whose position is the number of
    dequeues that have succeeded so far, and [None] only when there is no
    such event, that is when everything enqueued has been dequeued; so the
    i-th successful [dequeue] returns the i-th event enqueued. *)
Theorem dequeue_is_fifo (priority : bool) (ops : list Op) :
  forallb (fun op => negb (is_Clear op)) ops = true ->
  (dequeue (run ops (new priority)).2).1
  = enqueued ops !! length (successes (run ops (new priority)).1)
  /\ forall (i : nat) (event : Event),
       successes (run ops (new priority)).1 !! i = Some event ->
       enqueued ops !! i = Some event.
Proof.
  intros Hops.
  pose proof (run_conserves ops (new priority) Hops) as E. simpl in E.
  split.
  - rewrite <- E, lookup_app_r by lia. rewrite Nat.sub_diag.
    unfold dequeue, wait_for_get, Queue_get.
    by destruct (_queue (run ops (new priority)).2).
  - intros i event Hi. rewrite <- E. by apply lookup_app_l_Some.
Qed.

Lemma dequeue_is_fifo_witness :
  let e1 := mkEvent "first" VNone 0 in
  let e2 := mkEvent "second" VNone 9 in
  let e3 := mkEvent "third" VNone 5 in
  let ops := [Enqueue e1; Enqueue e2; Enqueue e3; Dequeue] in
  (dequeue (run ops (new false)).2).1 = Some e2
  /\ forall (i : nat) (event : Event),
       successes (run ops (new false)).1 !! i = Some event ->
       enqueued ops !! i = Some event.
Proof.
  intros e1 e2 e3 ops.
  apply (dequeue_is_fifo false ops).
  reflexivity.
Defined.

(** C8: [dequeue] on an empty queue returns [None] (the timeout of the wait
    is caught, nothing is raised) and leaves the queue as it was. *)
Theorem dequeue_empty (q : AsyncEventQueue) :
  _queue q = [] -> dequeue q = (None, q).
Proof.
  intros Hempty. destruct q as [p items]. simpl in Hempty. subst items.
  reflexivity.
Qed.

Lemma dequeue_empty_witness : dequeue (new true) = (None, new true).
Proof. apply (dequeue_empty (new true)). reflexivity. Defined.

(** Two queues with the same items answer every sequence of calls alike,
    whatever their flags. *)
Lemma run_ignores_flag (ops : list Op) (q1 q2 : AsyncEventQueue) :
  _queue q1 = _queue q2 ->
  (run ops q1).1 = (run ops q2).1
  /\ _queue (run ops q1).2 = _queue (run ops q2).2.
Proof.
  revert q1 q2. induction ops as [|op ops IH]; intros q1 q2 Hq; simpl.
  - done.
  - destruct op as [event| |].
    + apply IH. simpl. by rewrite Hq.
    + unfold dequeue, wait_for_get. rewrite Hq.
      destruct (Queue_get (_queue q2)) as [[event items]|]; simpl.
      * specialize (IH (mkAsyncEventQueue (_priority_mode q1) items)
                       (mkAsyncEventQueue (_priority_mode q2) items) eq_refl).
        do 2 destruct (run ops _). simpl in *. destruct IH as [-> ->]. done.
      * specialize (IH (mkAsyncEventQueue (_priority_mode q1) (_queue q2))
                       (mkAsyncEventQueue (_priority_mode q2) (_queue q2))
                       eq_refl).
        do 2 destruct (run ops _). simpl in *. destruct IH as [-> ->]. done.
    + apply IH. simpl. by rewrite Hq.
Qed.

Lemma run_keeps_flag (ops : list Op) (q : AsyncEventQueue) :
  priority_mode (run ops q).2 = priority_mode q.
Proof.
  revert q. induction ops as [|op ops IH]; intros q; simpl; [done|].
  destruct op as [event| |].
  - by rewrite IH.
  - unfold dequeue. destruct (wait_for_get (_queue q)) as [[event|e] items].
    + specialize (IH (mkAsyncEventQueue (_priority_mode q) items)).
      destruct (run ops _). simpl in *. done.
    + specialize (IH (mkAsyncEventQueue (_priority_mode q) items)).
      destruct (run ops _). simpl in *. done.
  - by rewrite IH.
Qed.

(** C10: a queue built with [priority=True] and one built with
    [priority=False] return the same results to every sequence of calls and
    end with the same items in the same order; the flag is only recorded. *)
Theorem priority_flag_has_no_effect (ops : list Op) :
  (run ops (new true)).1 = (run ops (new false)).1
  /\ _queue (run ops (new true)).2 = _queue (run ops (new false)).2
  /\ priority_mode (run ops (new true)).2 = true
  /\ priority_mode (run ops (new false)).2 = false.
Proof.
  destruct (run_ignores_flag ops (new true) (new false) eq_refl) as [H1 H2].
  repeat split; [done|done| |]; by rewrite run_keeps_flag.
Qed.

End QueueFacts.

(** ** Timers *)

Section TimerFacts.

Import Timers.

(** A callback that raises drives a RUNNING timer to ERROR and clears its
    deadline. *)
Lemma expire_error (self : Timer) (event : Event) (e : exn) :
  _state self = RUNNING ->
  _event self = Some event ->
  _callback self (_id self) event = Some e ->
  _state (expire self) = ERROR
  /\ _duration (expire self) = None
  /\ _start_time (expire self) = None.
Proof. intros Hst Hev Hcb. unfold expire. by rewrite Hst, Hev, Hcb. Qed.

(** The timer of [test_timer_callback_error_handling] after its deadline. *)
Lemma errored_timer_state :
  _state (expire (schedule_timeout 0%Q (1 # 10)%Q fixture_event
                    (Timer_new "error_timer" error_callback)).2) = ERROR.
Proof. reflexivity. Qed.

(** [test_timer_validate_schedule_state] reaches ERROR by assigning [_state]
    on a timer whose deadline is armed, which no expiry leaves behind, and
    expects [TimerSchedulingError] there; the spec's words make no exception
    for that timer, so the test does not pass on this model. *)
Lemma test_forces_error_on_armed_timer :
  let forced :=
    set_state ERROR
      (schedule_timeout 0%Q (1 # 10)%Q fixture_event fixture_timer).2 in
  _duration forced = Some (1 # 10)%Q
  /\ test_timer_validate_schedule_state (schedule_timeout 0%Q) fixture_timer
       fixture_event = false.
Proof. split; reflexivity. Qed.



End TimerFacts.

(** ** The transition engine *)

Section EngineFacts.

Context {W : Type}.
Implicit Types (s : Sys W) (t chosen : Transition W) (event : Event).
Local Open Scope machine_scope.

Lemma invoke_eq (c : Call W) (cb : Callback W) s :
  invoke c cb s
  = (match (cb (world s)).1 with None => Returns tt | Some e => Raises e end,
     mkSys (machine s) (cb (world s)).2 (calls s ++ [c])).
Proof.
  unfold invoke, bind, record, run_callback. simpl.
  by destruct (cb (world s)) as [[e|] w'].
Qed.

(** Evaluating the guards of a table never touches the machine and never
    parks; what it keeps is a sublist of the table, in table order, of
    transitions out of the current state. *)
Lemma valid_transitions_frame event (transitions : list (Transition W)) s
    (r : Outcome (list (Transition W))) s' :
  valid_transitions event transitions s = (r, s') ->
  machine s' = machine s
  /\ r <> Parked
  /\ forall valid,
       r = Returns valid ->
       valid `sublist_of` transitions
       /\ Forall (fun t => State_eqb (source t) (cursor s) = true) valid.
Proof.
  revert s r s'. induction transitions as [|t ts IH]; intros s r s' Hrun.
  - injection Hrun as <- <-. split; [done|]. split; [done|].
    intros valid [= <-]. split; constructor.
  - cbn [valid_transitions] in Hrun.
    unfold bind at 1, current_state at 1 in Hrun. cbn beta iota in Hrun.
    fold (cursor s) in Hrun.
    destruct (State_eqb (source t) (cursor s)) eqn:Esrc.
    + unfold bind at 1, call_evaluate_guards, bind at 1, record in Hrun.
      cbn in Hrun.
      destruct (evaluate_guards t event (world s)) as [[b|e] w'] eqn:Eg.
      * unfold bind, ret in Hrun.
        destruct (valid_transitions event ts _) as [r1 s1] eqn:Er.
        destruct (IH _ _ _ Er) as (Hm & Hp & Hv).
        destruct r1 as [rest|e|]; injection Hrun as <- <-;
          (split; [done|]); (split; [done|]); [|done|done].
        intros valid [= <-]. destruct (Hv rest eq_refl) as [Hsub Hall].
        destruct b.
        -- split; [by constructor|]. by constructor.
        -- split; [by constructor|done].
      * injection Hrun as <- <-. split; [done|]. split; done.
    + unfold bind, ret in Hrun.
      destruct (valid_transitions event ts s) as [r1 s1] eqn:Er.
      destruct (IH _ _ _ Er) as (Hm & Hp & Hv).
      destruct r1 as [rest|e|]; injection Hrun as <- <-;
        (split; [done|]); (split; [done|]); [|done|done].
      intros valid [= <-]. destruct (Hv rest eq_refl) as [Hsub Hall].
      split; [by constructor|done].
Qed.

(** With guards that neither raise nor write (at the current world), the
    comprehension is the filter of the table by "source is the current state
    and the guards pass". *)
Lemma valid_transitions_read_only_guards event
    (transitions : list (Transition W)) (passes : Transition W -> bool) s :
  Forall (fun t => evaluate_guards t event (world s)
                   = (Ret (passes t), world s)) transitions ->
  exists s',
    valid_transitions event transitions s
    = (Returns (List.filter
                  (fun t => State_eqb (source t) (cursor s) && passes t)
                  transitions), s')
    /\ world s' = world s.
Proof.
  revert s. induction transitions as [|t ts IH]; intros s Hpure.
  - by exists s.
  - apply Forall_cons in Hpure as [Ht Hts].
    cbn [valid_transitions List.filter].
    unfold bind at 1, current_state at 1. cbv beta iota. fold (cursor s).
    destruct (State_eqb (source t) (cursor s)) eqn:Esrc.
    + unfold bind at 1, call_evaluate_guards, bind at 1, record.
      cbn [fst snd machine world calls]. cbv beta iota. rewrite Ht.
      destruct (IH (mkSys (machine s) (world s)
                      (calls s ++ [CallGuards t event])) Hts)
        as (s' & Hrun & Hw).
      unfold bind, ret. rewrite Hrun. exists s'. split; [|done].
      by destruct (passes t).
    + destruct (IH s Hts) as (s' & Hrun & Hw).
      unfold bind, ret. rewrite Hrun. by exists s'.
Qed.

(** [leave], callback by callback. *)
Lemma leave_eq chosen event s :
  leave chosen event s
  = let m := machine s in
    let cur := cursor s in
    match execute_on_exit (_hooks m) cur (world s) with
    | (Some e, w2) => (Raises e, mkSys m w2 (calls s ++ [CallHookExit cur]))
    | (None, w2) =>
        match on_exit cur w2 with
        | (Some e, w3) =>
            (Raises e,
             mkSys m w3 (calls s ++ [CallHookExit cur; CallStateExit cur]))
        | (None, w3) =>
            match execute_actions chosen event w3 with
            | (r, w4) =>
                (match r with None => Returns tt | Some e => Raises e end,
                 mkSys m w4
                   (calls s ++ [CallHookExit cur; CallStateExit cur;
                                CallActions chosen event]))
            end
        end
    end.
Proof.
  unfold leave, invoke, bind, hooks, current_state, cursor, record,
    run_callback.
  cbn.
  destruct (execute_on_exit _ _ (world s)) as [[e|] w2]; cbn; [done|].
  destruct (on_exit _ w2) as [[e|] w3]; cbn; [by rewrite <- app_assoc|].
  destruct (execute_actions chosen event w3) as [r w4]; cbn.
  by rewrite <- !app_assoc.
Qed.

(** [arrive], callback by callback. *)
Lemma arrive_eq chosen s :
  arrive chosen s
  = let m := machine s in
    let tgt := target chosen in
    let m' := mkMachine (ctx_set_current_state tgt (_context m)) (_hooks m)
                (_lock m) (_started m) (_stopped m) in
    match on_enter tgt (world s) with
    | (Some e, w5) =>
        (Raises e,
         mkSys m' w5 (calls s ++ [CallSetCurrent tgt; CallStateEnter tgt]))
    | (None, w5) =>
        match execute_on_enter (_hooks m) tgt w5 with
        | (r, w6) =>
            (match r with None => Returns tt | Some e => Raises e end,
             mkSys m' w6
               (calls s ++ [CallSetCurrent tgt; CallStateEnter tgt;
                            CallHookEnter tgt]))
        end
    end.
Proof.
  unfold arrive, invoke, bind, set_current_state, hooks, current_state,
    record, run_callback, with_machine, bind.
  cbn.
  destruct (on_enter (target chosen) (world s)) as [[e|] w5]; cbn;
    [by rewrite <- app_assoc|].
  destruct (execute_on_enter _ _ w5) as [r w6]; cbn.
  by rewrite <- !app_assoc.
Qed.

(** Past the gate and the lock, a call is its guarded [try] block. *)
Lemma process_event_started event s :
  _started (machine s) = true ->
  _stopped (machine s) = false ->
  _lock (machine s) = false ->
  process_event event s = guarded (process_event_try event) (set_lock true s).
Proof.
  intros Hstart Hstop Hlock.
  unfold process_event, bind, lock_acquire.
  by rewrite Hstart, Hstop, Hlock.
Qed.

(** The clauses see of the [try] block only how it ends. *)
Lemma guarded_ext (body body' : M W unit) s s' :
  body s = body' s' -> guarded body s = guarded body' s'.
Proof.
  intros Hbody. unfold guarded, try_finally, try_except. by rewrite Hbody.
Qed.

(** What the [except] and [finally] clauses make of the [try] block's
    outcome. *)
Lemma guarded_eq (body : M W unit) s (r : Outcome unit) s2 :
  body s = (r, s2) ->
  _lock (machine s2) = true ->
  guarded body s
  = match r with
    | Returns a => (Returns a, set_lock false s2)
    | Raises e =>
        if exn_is_Exception e
        then
          let out := execute_on_error (_hooks (machine s2)) e (world s2) in
          (match out.1 with None => Returns tt | Some e' => Raises e' end,
           set_lock false
             (mkSys (machine s2) out.2 (calls s2 ++ [CallHookError e])))
        else (Raises e, set_lock false s2)
    | Parked => (Parked, s2)
    end.
Proof.
  intros Hbody Hlock.
  unfold guarded, try_finally, try_except. rewrite Hbody.
  destruct r as [[]|e|]; [| |done].
  - unfold lock_release. by rewrite Hlock.
  - destruct (exn_is_Exception e).
    + unfold process_event_except, bind, hooks. cbv beta iota zeta.
      rewrite invoke_eq. cbn [fst snd machine world calls].
      destruct (execute_on_error _ e (world s2)) as [[e'|] w'];
        unfold lock_release; cbn; by rewrite Hlock.
    + unfold lock_release. by rewrite Hlock.
Qed.

Lemma process_event_try_step event s (valid : list (Transition W)) s1 :
  valid_transitions event (get_transitions (_context (machine s))) s
  = (Returns valid, s1) ->
  process_event_try event s
  = match valid with
    | [] => (Returns tt, s1)
    | _ :: _ => fire valid event s1
    end.
Proof.
  intros Hvalid. unfold process_event_try, context_get_transitions, bind.
  cbv beta iota zeta.
  rewrite Hvalid. by destruct valid.
Qed.

Lemma process_event_try_fire event s (valid : list (Transition W)) s1 :
  valid_transitions event (get_transitions (_context (machine s))) s
  = (Returns valid, s1) ->
  valid <> [] ->
  process_event_try event s = fire valid event s1.
Proof.
  intros Hvalid Hne. rewrite (process_event_try_step _ _ _ _ Hvalid).
  by destruct valid.
Qed.

Lemma fire_step (valid : list (Transition W)) event s chosen
    (rest : list (Transition W)) :
  sorted_reverse get_priority valid = chosen :: rest ->
  fire valid event s = (leave chosen event ;; arrive chosen) s.
Proof.
  intros Hsort. unfold fire, choose, item0. rewrite Hsort.
  reflexivity.
Qed.

(** The [try] block never parks and leaves the lock, the flags and the hooks
    of the machine alone. *)
Lemma process_event_try_frame event s (r : Outcome unit) s2 :
  process_event_try event s = (r, s2) ->
  r <> Parked
  /\ _lock (machine s2) = _lock (machine s)
  /\ _hooks (machine s2) = _hooks (machine s)
  /\ _started (machine s2) = _started (machine s)
  /\ _stopped (machine s2) = _stopped (machine s).
Proof.
  unfold process_event_try, context_get_transitions, bind.
  cbv beta iota zeta.
  destruct (valid_transitions event _ s) as [rv s1] eqn:Ev.
  destruct (valid_transitions_frame _ _ _ _ _ Ev) as (Hm & Hp & _).
  destruct rv as [valid|e|]; [| |done].
  - destruct valid as [|t0 valid0] eqn:Evalid.
    + intros [= <- <-]. by rewrite Hm.
    + rewrite <- Evalid.
      destruct (sorted_reverse_head get_priority valid)
        as (chosen & _ & _ & rest & _ & Hsort & _); [by subst|].
      rewrite (fire_step _ _ _ _ _ Hsort). unfold bind at 1.
      rewrite leave_eq. cbv zeta.
      destruct (execute_on_exit _ _ _) as [[e|] w2];
        [intros [= <- <-]; by rewrite <- Hm|].
      destruct (on_exit _ w2) as [[e|] w3];
        [intros [= <- <-]; by rewrite <- Hm|].
      destruct (execute_actions chosen event w3) as [[e|] w4];
        [intros [= <- <-]; by rewrite <- Hm|].
      rewrite arrive_eq. cbv zeta. cbn [machine world calls].
      destruct (on_enter _ w4) as [[e|] w5];
        [intros [= <- <-]; by rewrite <- Hm|].
      destruct (execute_on_enter _ _ w5) as [[e|] w6];
        intros [= <- <-]; by rewrite <- Hm.
  - intros [= <- <-]. by rewrite Hm.
Qed.

(** An exception raised by the exit hooks, by the exit behavior of the
    current state or by the actions ends [leave] with the machine as it
    was. *)
Lemma leave_raises chosen event s (e : exn) :
  (execute_on_exit (_hooks (machine s)) (cursor s) (world s)).1 = Some e
  \/ (exists w2,
        execute_on_exit (_hooks (machine s)) (cursor s) (world s) = (None, w2)
        /\ ((on_exit (cursor s) w2).1 = Some e
            \/ exists w3,
                 on_exit (cursor s) w2 = (None, w3)
                 /\ (execute_actions chosen event w3).1 = Some e)) ->
  exists s2, leave chosen event s = (Raises e, s2) /\ machine s2 = machine s.
Proof.
  intros Hcase. rewrite leave_eq. cbv zeta.
  destruct Hcase as [Hhook|(w2 & Hhook & [Hexit|(w3 & Hexit & Hact)])].
  - destruct (execute_on_exit _ _ _) as [r w2]. simpl in Hhook. subst r.
    by eexists.
  - rewrite Hhook. destruct (on_exit _ w2) as [r w3]. simpl in Hexit. subst r.
    by eexists.
  - rewrite Hhook, Hexit.
    destruct (execute_actions chosen event w3) as [r w4]. simpl in Hact.
    subst r. by eexists.
Qed.

(** C9: on a machine that has not been started, or has been stopped,
    [process_event] returns at once and changes nothing: same machine (current
    state included), same world, no call to a guard or to a hook. *)
Theorem process_event_noop_unless_running event s :
  _started (machine s) = false \/ _stopped (machine s) = true ->
  process_event event s = (Returns tt, s).
Proof.
  intros [Hidle|Hstopped]; unfold process_event.
  - by rewrite Hidle.
  - rewrite Hstopped. by rewrite orb_true_r.
Qed.

(** C1: when the guards leave at least one transition out of the current
    state, the one [process_event] fires has the highest priority among them
    and is the first registered of those that have it: every valid transition
    registered before it has a strictly lower priority, none has a higher
    one. *)
Theorem process_event_selects_first_of_highest_priority event s
    (valid : list (Transition W)) s1 :
  _started (machine s) = true ->
  _stopped (machine s) = false ->
  _lock (machine s) = false ->
  valid_transitions event (get_transitions (_context (machine s)))
    (set_lock true s) = (Returns valid, s1) ->
  valid <> [] ->
  exists chosen before after,
    valid = before ++ chosen :: after
    /\ Forall (fun t => get_priority t < get_priority chosen) before
    /\ Forall (fun t => get_priority t <= get_priority chosen) after
    /\ valid `sublist_of` get_transitions (_context (machine s))
    /\ Forall (fun t => State_eqb (source t) (cursor s) = true) valid
    /\ process_event event s
       = guarded (leave chosen event ;; arrive chosen) s1.
Proof.
  intros Hstart Hstop Hlock Hvalid Hne.
  destruct (sorted_reverse_head get_priority valid Hne)
    as (chosen & before & after & rest & Esplit & Hsort & Hbefore & Hafter).
  destruct (valid_transitions_frame _ _ _ _ _ Hvalid) as (_ & _ & Hv).
  destruct (Hv valid eq_refl) as [Hsub Hsrc].
  exists chosen, before, after.
  split; [done|]. split; [done|]. split; [done|]. split; [done|].
  split; [done|].
  rewrite (process_event_started _ _ Hstart Hstop Hlock).
  apply guarded_ext.
  rewrite (process_event_try_fire _ _ _ _ Hvalid Hne).
  apply (fire_step _ _ _ _ _ Hsort).
Qed.

(** C2: when the exit hooks, the exit behavior of the current state or the
    actions of the chosen transition raise, the current state after
    [process_event] is the one before it, whether the call returns or raises;
    an instance of [Exception] has gone to the error hooks, as the last call,
    and anything else has reached the caller. *)
Theorem process_event_keeps_cursor_when_leaving_fails event s
    (valid : list (Transition W)) s1 chosen (rest : list (Transition W))
    (e : exn) :
  _started (machine s) = true ->
  _stopped (machine s) = false ->
  _lock (machine s) = false ->
  valid_transitions event (get_transitions (_context (machine s)))
    (set_lock true s) = (Returns valid, s1) ->
  sorted_reverse get_priority valid = chosen :: rest ->
  (execute_on_exit (_hooks (machine s)) (cursor s) (world s1)).1 = Some e
  \/ (exists w2,
        execute_on_exit (_hooks (machine s)) (cursor s) (world s1) = (None, w2)
        /\ ((on_exit (cursor s) w2).1 = Some e
            \/ exists w3,
                 on_exit (cursor s) w2 = (None, w3)
                 /\ (execute_actions chosen event w3).1 = Some e)) ->
  cursor (process_event event s).2 = cursor s
  /\ (exn_is_Exception e = true ->
      last (calls (process_event event s).2) = Some (CallHookError e))
  /\ (exn_is_Exception e = false ->
      (process_event event s).1 = Raises e).
Proof.
  intros Hstart Hstop Hlock Hvalid Hsort Hcase.
  destruct (valid_transitions_frame _ _ _ _ _ Hvalid) as (Hm & _ & _).
  assert (Hcur : cursor s1 = cursor s) by (unfold cursor; by rewrite Hm).
  assert (Hhk : _hooks (machine s1) = _hooks (machine s)) by (by rewrite Hm).
  destruct (leave_raises chosen event s1 e) as (s2 & Hleave & Hm2).
  { by rewrite Hcur, Hhk. }
  assert (Htry : process_event_try event (set_lock true s) = (Raises e, s2)).
  { rewrite (process_event_try_fire _ _ _ _ Hvalid)
      by (intros ->; discriminate Hsort).
    rewrite (fire_step _ _ _ _ _ Hsort). unfold bind. by rewrite Hleave. }
  rewrite (process_event_started _ _ Hstart Hstop Hlock).
  rewrite (guarded_eq _ _ _ _ Htry) by (by rewrite Hm2, Hm).
  destruct (exn_is_Exception e); cbn.
  - split; [unfold cursor; cbn; by rewrite Hm2, Hm|].
    split; [intros _; apply last_snoc|done].
  - split; [unfold cursor; cbn; by rewrite Hm2, Hm|]. split; done.
Qed.

(** C4: a transition that goes through makes exactly six calls, in this
    order: the exit hooks for the current state (the chosen transition's
    source), that state's exit behavior, the actions, the move of the cursor
    to the target, the target's enter behavior, the enter hooks for the
    target; each runs on the world its predecessor left. *)
Theorem process_event_transition_sequence event s
    (valid : list (Transition W)) s1 s2 :
  _started (machine s) = true ->
  _stopped (machine s) = false ->
  _lock (machine s) = false ->
  valid_transitions event (get_transitions (_context (machine s)))
    (set_lock true s) = (Returns valid, s1) ->
  valid <> [] ->
  fire valid event s1 = (Returns tt, s2) ->
  exists chosen rest w2 w3 w4 w5,
    sorted_reverse get_priority valid = chosen :: rest
    /\ State_eqb (source chosen) (cursor s) = true
    /\ execute_on_exit (_hooks (machine s)) (cursor s) (world s1) = (None, w2)
    /\ on_exit (cursor s) w2 = (None, w3)
    /\ execute_actions chosen event w3 = (None, w4)
    /\ on_enter (target chosen) w4 = (None, w5)
    /\ execute_on_enter (_hooks (machine s)) (target chosen) w5
       = (None, world s2)
    /\ calls s2
       = calls s1 ++ [CallHookExit (cursor s); CallStateExit (cursor s);
                      CallActions chosen event;
                      CallSetCurrent (target chosen);
                      CallStateEnter (target chosen);
                      CallHookEnter (target chosen)]
    /\ cursor s2 = target chosen
    /\ process_event event s = (Returns tt, set_lock false s2).
Proof.
  intros Hstart Hstop Hlock Hvalid Hne Hfire.
  destruct (sorted_reverse_head get_priority valid Hne)
    as (chosen & _ & _ & rest & _ & Hsort & _).
  destruct (valid_transitions_frame _ _ _ _ _ Hvalid) as (Hm & _ & Hv).
  destruct (Hv valid eq_refl) as [_ Hsrc].
  assert (Hin : chosen ∈ valid).
  { rewrite <- (sorted_reverse_perm get_priority valid), Hsort. left. }
  rewrite Forall_forall in Hsrc. specialize (Hsrc chosen Hin).
  assert (Hcur : cursor s1 = cursor s) by (unfold cursor; by rewrite Hm).
  assert (Hhk : _hooks (machine s1) = _hooks (machine s)) by (by rewrite Hm).
  assert (Hlk : _lock (machine s1) = true) by (by rewrite Hm).
  assert (Htry : process_event_try event (set_lock true s) = (Returns tt, s2)).
  { by rewrite (process_event_try_fire _ _ _ _ Hvalid Hne). }
  rewrite (fire_step _ _ _ _ _ Hsort) in Hfire. unfold bind in Hfire.
  rewrite leave_eq in Hfire. cbv zeta in Hfire. rewrite Hcur, Hhk in Hfire.
  destruct (execute_on_exit _ _ (world s1)) as [[?|] w2] eqn:E2; [done|].
  destruct (on_exit _ w2) as [[?|] w3] eqn:E3; [done|].
  destruct (execute_actions chosen event w3) as [[?|] w4] eqn:E4; [done|].
  rewrite arrive_eq in Hfire. cbv zeta in Hfire.
  cbn [machine world calls] in Hfire. rewrite Hhk in Hfire.
  destruct (on_enter _ w4) as [[?|] w5] eqn:E5; [done|].
  destruct (execute_on_enter _ _ w5) as [[?|] w6] eqn:E6; [done|].
  injection Hfire as <-.
  exists chosen, rest, w2, w3, w4, w5.
  split; [done|]. split; [done|]. split; [done|]. split; [done|].
  split; [done|]. split; [done|]. split; [done|].
  split; [by rewrite <- app_assoc|]. split; [done|].
  rewrite (process_event_started _ _ Hstart Hstop Hlock).
  by rewrite (guarded_eq _ _ _ _ Htry).
Qed.

(** C3, amended: the lock is released on every path; an instance of
    [Exception] raised in the [try] block is handed to the error hooks, as
    the last call, and [process_event] then returns unless the error hooks
    raise, in which case it raises what they raised; an exception that is not
    an instance of [Exception] reaches the caller and the error hooks are not
    called; so with error hooks that never raise, [process_event] returns or
    raises an exception of the [try] block that is not an instance of
    [Exception]. *)
Theorem process_event_routes_exceptions event s :
  _started (machine s) = true ->
  _stopped (machine s) = false ->
  _lock (machine s) = false ->
  _lock (machine (process_event event s).2) = false
  /\ (forall e s2,
        process_event_try event (set_lock true s) = (Raises e, s2) ->
        exn_is_Exception e = true ->
        calls (process_event event s).2 = calls s2 ++ [CallHookError e]
        /\ world (process_event event s).2
           = (execute_on_error (_hooks (machine s)) e (world s2)).2
        /\ (process_event event s).1
           = match (execute_on_error (_hooks (machine s)) e (world s2)).1 with
             | None => Returns tt
             | Some e' => Raises e'
             end)
  /\ (forall e s2,
        process_event_try event (set_lock true s) = (Raises e, s2) ->
        exn_is_Exception e = false ->
        process_event event s = (Raises e, set_lock false s2))
  /\ (forall s2,
        process_event_try event (set_lock true s) = (Returns tt, s2) ->
        process_event event s = (Returns tt, set_lock false s2))
  /\ ((forall e w, (execute_on_error (_hooks (machine s)) e w).1 = None) ->
      (process_event event s).1 = Returns tt
      \/ exists e s2,
           process_event_try event (set_lock true s) = (Raises e, s2)
           /\ exn_is_Exception e = false
           /\ (process_event event s).1 = Raises e).
Proof.
  intros Hstart Hstop Hlock.
  rewrite (process_event_started _ _ Hstart Hstop Hlock).
  destruct (process_event_try event (set_lock true s)) as [r s2] eqn:Htry.
  destruct (process_event_try_frame _ _ _ _ Htry)
    as (Hp & Hlk & Hhk & _ & _).
  cbn in Hlk, Hhk.
  rewrite (guarded_eq _ _ _ _ Htry Hlk).
  destruct r as [[]|e|]; [| |done]; cbn.
  - split; [done|]. split; [done|]. split; [done|]. split.
    + by intros s2' [= <-].
    + intros _. by left.
  - destruct (exn_is_Exception e) eqn:Hexc; cbn; rewrite ?Hhk.
    + split; [done|]. split; [|split; [|split; [done|]]].
      * by intros e0 s0 [= <- <-] _.
      * intros e0 s0 [= <- <-]. congruence.
      * intros Hquiet. left. by rewrite Hquiet.
    + split; [done|]. split; [|split; [|split; [done|]]].
      * intros e0 s0 [= <- <-]. congruence.
      * by intros e0 s0 [= <- <-] _.
      * intros _. right. by exists e, s2.
Qed.

End EngineFacts.

(** ** The engine on the machines of [Demo] *)

Section EngineRuns.

Import Demo.

(** The spec's scenario: the machine moves from A to B, and [on_exit] of A
    comes before [on_enter] of B, for the state behaviors and for the
    hooks. *)
Lemma scenario_run :
  let (r, s') := process_event ping scenario in
  r = Returns tt
  /\ name (cursor s') = "B"
  /\ world s' = ["hook.on_exit A"; "A.on_exit"; "A_to_B actions";
                 "B.on_enter"; "hook.on_enter B"].
Proof. cbn. done. Qed.

(** Registration order decides between the two transitions of priority 5. *)
Lemma contested_run :
  sorted_reverse get_priority [A_to_B; A_to_C_first; A_to_B_second]
  = [A_to_C_first; A_to_B_second; A_to_B]
  /\ name (cursor (process_event ping contested).2) = "C".
Proof. split; reflexivity. Qed.

Lemma process_event_noop_unless_running_witness :
  process_event ping not_started = (Returns tt, not_started).
Proof.
  apply (process_event_noop_unless_running ping not_started).
  left. reflexivity.
Defined.

Lemma process_event_selects_first_of_highest_priority_witness :
  let valid := [A_to_B; A_to_C_first; A_to_B_second] in
  let s1 :=
    (valid_transitions ping (get_transitions (_context (machine contested)))
       (set_lock true contested)).2 in
  exists chosen before after,
    valid = before ++ chosen :: after
    /\ Forall (fun t => get_priority t < get_priority chosen) before
    /\ Forall (fun t => get_priority t <= get_priority chosen) after
    /\ valid `sublist_of` get_transitions (_context (machine contested))
    /\ Forall (fun t => State_eqb (source t) (cursor contested) = true) valid
    /\ process_event ping contested
       = guarded (bind (leave chosen ping) (fun _ => arrive chosen)) s1.
Proof.
  intros valid s1.
  apply (process_event_selects_first_of_highest_priority ping contested
           valid s1).
  - reflexivity.
  - reflexivity.
  - reflexivity.
  - reflexivity.
  - discriminate.
Defined.

Lemma process_event_keeps_cursor_when_leaving_fails_witness :
  let e := PyException "RuntimeError" "action failed" None in
  cursor (process_event ping failing).2 = cursor failing
  /\ (exn_is_Exception e = true ->
      last (calls (process_event ping failing).2) = Some (CallHookError e))
  /\ (exn_is_Exception e = false ->
      (process_event ping failing).1 = Raises e).
Proof.
  intros e.
  apply (process_event_keeps_cursor_when_leaving_fails ping failing
           [A_to_B_failing]
           (valid_transitions ping
              (get_transitions (_context (machine failing)))
              (set_lock true failing)).2
           A_to_B_failing [] e).
  - reflexivity.
  - reflexivity.
  - reflexivity.
  - reflexivity.
  - reflexivity.
  - right. exists ["hook.on_exit A"]. split; [reflexivity|].
    right. exists ["hook.on_exit A"; "A.on_exit"]. split; reflexivity.
Defined.

Lemma process_event_transition_sequence_witness :
  let valid := [A_to_B] in
  let s1 :=
    (valid_transitions ping (get_transitions (_context (machine scenario)))
       (set_lock true scenario)).2 in
  let s2 := (fire valid ping s1).2 in
  exists chosen rest w2 w3 w4 w5,
    sorted_reverse get_priority valid = chosen :: rest
    /\ State_eqb (source chosen) (cursor scenario) = true
    /\ execute_on_exit (_hooks (machine scenario)) (cursor scenario)
         (world s1) = (None, w2)
    /\ on_exit (cursor scenario) w2 = (None, w3)
    /\ execute_actions chosen ping w3 = (None, w4)
    /\ on_enter (target chosen) w4 = (None, w5)
    /\ execute_on_enter (_hooks (machine scenario)) (target chosen) w5
       = (None, world s2)
    /\ calls s2
       = calls s1 ++ [CallHookExit (cursor scenario);
                      CallStateExit (cursor scenario);
                      CallActions chosen ping;
                      CallSetCurrent (target chosen);
                      CallStateEnter (target chosen);
                      CallHookEnter (target chosen)]
    /\ cursor s2 = target chosen
    /\ process_event ping scenario = (Returns tt, set_lock false s2).
Proof.
  intros valid s1 s2.
  apply (process_event_transition_sequence ping scenario valid s1 s2).
  - reflexivity.
  - reflexivity.
  - reflexivity.
  - reflexivity.
  - discriminate.
  - reflexivity.
Defined.

(** C3, as stated, fails: with an observer whose [on_error] raises and an
    action that raises, [process_event] on a started machine raises what
    [on_error] raised. *)
Lemma process_event_never_raises_counterexample :
  (_started (machine brittle) = true
   /\ _stopped (machine brittle) = false
   /\ _lock (machine brittle) = false
   /\ (process_event ping brittle).1
      = Raises (PyException "RuntimeError" "on_error failed" None))
  /\ ~ (forall (s : Sys Log) (event : Event),
          _started (machine s) = true ->
          _stopped (machine s) = false ->
          _lock (machine s) = false ->
          (process_event event s).1 = Returns tt).
Proof.
  split; [repeat split; reflexivity|].
  intros Hclaim.
  specialize (Hclaim brittle ping eq_refl eq_refl eq_refl).
  discriminate Hclaim.
Qed.

Lemma brittle_run :
  (process_event ping brittle).1
  = Raises (PyException "RuntimeError" "on_error failed" None)
  /\ world (process_event ping brittle).2
     = ["hook.on_exit A"; "A.on_exit"; "action failed"; "on_error failed"]
  /\ name (cursor (process_event ping brittle).2) = "A"
  /\ _lock (machine (process_event ping brittle).2) = false.
Proof. repeat split; reflexivity. Qed.

Lemma process_event_routes_exceptions_witness :
  _lock (machine (process_event ping failing).2) = false
  /\ (forall e s2,
        process_event_try ping (set_lock true failing) = (Raises e, s2) ->
        exn_is_Exception e = true ->
        calls (process_event ping failing).2 = calls s2 ++ [CallHookError e]
        /\ world (process_event ping failing).2
           = (execute_on_error (_hooks (machine failing)) e (world s2)).2
        /\ (process_event ping failing).1
           = match
               (execute_on_error (_hooks (machine failing)) e (world s2)).1
             with
             | None => Returns tt
             | Some e' => Raises e'
             end)
  /\ (forall e s2,
        process_event_try ping (set_lock true failing) = (Raises e, s2) ->
        exn_is_Exception e = false ->
        process_event ping failing = (Raises e, set_lock false s2))
  /\ (forall s2,
        process_event_try ping (set_lock true failing) = (Returns tt, s2) ->
        process_event ping failing = (Returns tt, set_lock false s2))
  /\ ((forall e w,
         (execute_on_error (_hooks (machine failing)) e w).1 = None) ->
      (process_event ping failing).1 = Returns tt
      \/ exists e s2,
           process_event_try ping (set_lock true failing) = (Raises e, s2)
           /\ exn_is_Exception e = false
           /\ (process_event ping failing).1 = Raises e).
Proof.
  apply (process_event_routes_exceptions ping failing); reflexivity.
Defined.

(** An action that raises [KeyboardInterrupt]: the error hooks are not
    called, the exception reaches the caller, the machine stays in A and the
    lock is released. *)
Lemma interrupted_run :
  (process_event ping DemoLifecycle.interrupted).1
  = Raises (PyBaseException "KeyboardInterrupt" "" None)
  /\ world (process_event ping DemoLifecycle.interrupted).2
     = ["hook.on_exit A"; "A.on_exit"; "interrupted"]
  /\ name (cursor (process_event ping DemoLifecycle.interrupted).2) = "A"
  /\ _lock (machine (process_event ping DemoLifecycle.interrupted).2) = false.
Proof. repeat split; reflexivity. Qed.

End EngineRuns.

(** ** More of guards.py *)

Section MoreGuardFacts.

Import Guards.

Context (errors : GuardErrorClass).

Lemma check_required_true (self : GuardBase) (event : Event)
    (state_data : PyValue) (keys : list string) :
  check_required errors self event state_data keys = Ret true
  <-> Forall (fun key => has_key key state_data = true) keys.
Proof.
  induction keys as [|key keys IH]; simpl.
  - split; [constructor|done].
  - destruct (has_key key state_data) eqn:Ekey; simpl.
    + rewrite IH. split.
      * by constructor.
      * by intros [_ ?]%Forall_cons.
    + split; [done|]. intros [Hk _]%Forall_cons. congruence.
Qed.

Lemma check_required_outcomes (self : GuardBase) (event : Event)
    (state_data : PyValue) (keys : list string) :
  check_required errors self event state_data keys = Ret true
  \/ exists key,
       key ∈ keys /\ has_key key state_data = false
       /\ check_required errors self event state_data keys
          = Raise (GuardEvaluationError errors
                     ("Missing required key: " +:+ key)
                     (guard_name self) state_data event None).
Proof.
  induction keys as [|key keys IH]; simpl; [by left|].
  destruct (has_key key state_data) eqn:Ekey; simpl.
  - destruct IH as [IH|(k & Hin & Hk & IH)]; [by left|].
    right. exists k. split; [by right|done].
  - right. exists key. split; [left|done].
Qed.

(** X1: [KeyExistsGuard.check] returns [True] exactly when [state_data] is a
    dictionary that has every required key, and it never returns [False]. *)
Theorem KeyExistsGuard_check_true_iff (self : KeyExistsGuard) (event : Event)
    (state_data : PyValue) :
  (KeyExistsGuard_check errors self event state_data = Ret true
   <-> is_dict state_data = true
       /\ Forall (fun key => has_key key state_data = true)
            (required_keys self))
  /\ KeyExistsGuard_check errors self event state_data <> Ret false.
Proof.
  unfold KeyExistsGuard_check.
  destruct (is_dict state_data); simpl.
  - rewrite check_required_true. split; [tauto|].
    destruct (check_required_outcomes (key_base self) event state_data
                (required_keys self)) as [->|(k & _ & _ & ->)]; done.
  - split; [|done]. split; [done|]. by intros [? _].
Qed.

(** X2: on a dictionary, [KeyExistsGuard.check] reports the first required
    key that is missing, in the order of [required_keys], in an error with
    the guard's name, the state data, the event and no cause. *)
Theorem KeyExistsGuard_check_first_missing (self : KeyExistsGuard)
    (event : Event) (state_data : PyValue) (before after : list string)
    (key : string) :
  is_dict state_data = true ->
  required_keys self = before ++ key :: after ->
  Forall (fun k => has_key k state_data = true) before ->
  has_key key state_data = false ->
  KeyExistsGuard_check errors self event state_data
  = Raise (GuardEvaluationError errors ("Missing required key: " +:+ key)
             (guard_name (key_base self)) state_data event None).
Proof.
  intros Hdict Hkeys Hbefore Hmissing.
  unfold KeyExistsGuard_check. rewrite Hdict, Hkeys. simpl. clear Hkeys.
  induction Hbefore as [|k before Hk _ IH]; simpl.
  - by rewrite Hmissing.
  - rewrite Hk. simpl. exact IH.
Qed.

(** X3: whatever [KeyExistsGuard.check] raises is a [GuardEvaluationError]
    with the guard's name, the state data and the event of the call and no
    cause, either because the state data is not a dictionary (also when no
    key is required) or for a required key that the dictionary lacks. *)
Theorem KeyExistsGuard_check_raises_classified (self : KeyExistsGuard)
    (event : Event) (state_data : PyValue) (e : exn) :
  KeyExistsGuard_check errors self event state_data = Raise e ->
  exists message,
    e = GuardEvaluationError errors message (guard_name (key_base self))
          state_data event None
    /\ ((is_dict state_data = false
         /\ message = "state_data must be a dictionary")
        \/ (is_dict state_data = true
            /\ exists key,
                 key ∈ required_keys self
                 /\ has_key key state_data = false
                 /\ message = "Missing required key: " +:+ key)).
Proof.
  unfold KeyExistsGuard_check.
  destruct (is_dict state_data); simpl.
  - destruct (check_required_outcomes (key_base self) event state_data
                (required_keys self)) as [->|(k & Hin & Hk & ->)]; [done|].
    intros [= <-]. eexists. split; [done|]. right. split; [done|].
    by exists k.
  - intros [= <-]. eexists. split; [done|]. by left.
Qed.

(** X4: [ConditionGuard.check] returns [True] exactly when the condition
    returns true and never returns [False].  A condition that returns false
    makes it raise a [GuardEvaluationError] with the guard's name, the state
    data and the event: the guard's own "Condition failed" error, wrapped by
    the [except] clause if the class derives from [Exception].  An instance
    [inner] of [Exception] raised by the condition is wrapped, with the
    message "Condition evaluation error: " followed by [str(inner)], and is
    the cause if it is true, no cause being set if it is false; any other
    exception passes through. *)
Theorem check_outcomes (self : ConditionGuard) (event : Event)
    (state_data : PyValue) :
  (check errors self event state_data = Ret true
   <-> condition self state_data = Ret true)
  /\ check errors self event state_data <> Ret false
  /\ (condition self state_data = Ret false ->
      let failed :=
        GuardEvaluationError errors "Condition failed"
          (guard_name (base self)) state_data event None in
      check errors self event state_data
      = Raise (if error_is_Exception errors
               then GuardEvaluationError errors
                      ("Condition evaluation error: " +:+ exn_str failed)
                      (guard_name (base self)) state_data event
                      (if error_truthy errors then Some failed else None)
               else failed))
  /\ (forall inner,
        condition self state_data = Raise inner ->
        check errors self event state_data
        = Raise (if exn_is_Exception inner
                 then GuardEvaluationError errors
                        ("Condition evaluation error: " +:+ exn_str inner)
                        (guard_name (base self)) state_data event
                        (if exn_truthy inner then Some inner else None)
                 else inner)).
Proof.
  unfold check, check_try, _raise_guard_error.
  destruct (condition self state_data) as [[]|inner]; simpl.
  - split; [done|]. split; [done|]. split; done.
  - destruct (error_is_Exception errors), (error_truthy errors); simpl;
      (split; [done|]); (split; [done|]); split; done.
  - destruct (exn_is_Exception inner) eqn:Hexc,
      (exn_truthy inner) eqn:Htrue; simpl;
      (split; [done|]); (split; [done|]); (split; [done|]);
      intros ? [= <-]; by rewrite Hexc, ?Htrue.
Qed.

(** X5: [AsyncConditionGuard.check] does the same with its own messages: it
    returns [True] exactly when the awaited condition is true and never
    returns [False]; a false condition gives the guard's own "Async condition
    failed" error, wrapped if the class derives from [Exception]; an instance
    of [Exception] raised by the condition is wrapped as "Async condition
    evaluation error: " followed by its [str], with itself as cause if it is
    true; any other exception passes through. *)
Theorem async_check_outcomes (self : AsyncConditionGuard) (event : Event)
    (state_data : PyValue) :
  (async_check errors self event state_data = Ret true
   <-> async_condition self state_data = Ret true)
  /\ async_check errors self event state_data <> Ret false
  /\ (async_condition self state_data = Ret false ->
      let failed :=
        GuardEvaluationError errors "Async condition failed"
          (guard_name (async_base self)) state_data event None in
      async_check errors self event state_data
      = Raise (if error_is_Exception errors
               then GuardEvaluationError errors
                      ("Async condition evaluation error: "
                       +:+ exn_str failed)
                      (guard_name (async_base self)) state_data event
                      (if error_truthy errors then Some failed else None)
               else failed))
  /\ (forall inner,
        async_condition self state_data = Raise inner ->
        async_check errors self event state_data
        = Raise (if exn_is_Exception inner
                 then GuardEvaluationError errors
                        ("Async condition evaluation error: "
                         +:+ exn_str inner)
                        (guard_name (async_base self)) state_data event
                        (if exn_truthy inner then Some inner else None)
                 else inner)).
Proof.
  unfold async_check, async_check_try, _raise_guard_error.
  destruct (async_condition self state_data) as [[]|inner]; simpl.
  - split; [done|]. split; [done|]. split; done.
  - destruct (error_is_Exception errors), (error_truthy errors); simpl;
      (split; [done|]); (split; [done|]); split; done.
  - destruct (exn_is_Exception inner) eqn:Hexc,
      (exn_truthy inner) eqn:Htrue; simpl;
      (split; [done|]); (split; [done|]); (split; [done|]);
      intros ? [= <-]; by rewrite Hexc, ?Htrue.
Qed.

End MoreGuardFacts.

Section MoreGuardRuns.

Import Guards.

Lemma KeyExistsGuard_check_first_missing_witness :
  let guard := KeyExistsGuard_new ["status"; "counter"; "owner"] in
  let data := VDict [("status", VStr "ok")] in
  KeyExistsGuard_check plain_errors guard Demo.ping data
  = Raise (GuardEvaluationError plain_errors "Missing required key: counter"
             "KeyExistsGuard" data Demo.ping None).
Proof.
  intros guard data.
  apply (KeyExistsGuard_check_first_missing plain_errors guard Demo.ping data
           ["status"] ["owner"] "counter").
  - reflexivity.
  - reflexivity.
  - repeat constructor.
  - reflexivity.
Defined.

Lemma KeyExistsGuard_check_raises_classified_witness :
  let guard := KeyExistsGuard_new [] in
  exists message,
    GuardEvaluationError plain_errors "state_data must be a dictionary"
      "KeyExistsGuard" (VStr "ready") Demo.ping None
    = GuardEvaluationError plain_errors message (guard_name (key_base guard))
        (VStr "ready") Demo.ping None
    /\ ((is_dict (VStr "ready") = false
         /\ message = "state_data must be a dictionary")
        \/ (is_dict (VStr "ready") = true
            /\ exists key,
                 key ∈ required_keys guard
                 /\ has_key key (VStr "ready") = false
                 /\ message = "Missing required key: " +:+ key)).
Proof.
  intros guard.
  apply (KeyExistsGuard_check_raises_classified plain_errors guard Demo.ping
           (VStr "ready")).
  reflexivity.
Defined.

End MoreGuardRuns.

(** ** More of the event queue *)

Section MoreQueueFacts.

Import Queue.

Lemma drain_nil (items : list Event) : drain items = [].
Proof. induction items as [|item items IH]; [done|exact IH]. Qed.

(** X6: [clear] empties the queue whatever it holds and keeps the priority
    flag; the next [dequeue] returns [None]. *)
Theorem clear_empties (q : AsyncEventQueue) :
  _queue (clear q) = []
  /\ priority_mode (clear q) = priority_mode q
  /\ dequeue (clear q) = (None, clear q).
Proof.
  unfold clear, dequeue, wait_for_get. simpl. by rewrite drain_nil.
Qed.

(** X7: [dequeue] returns [None] only on an empty queue: with an item queued
    it returns an event. *)
Theorem dequeue_none_iff_empty (q : AsyncEventQueue) :
  (dequeue q).1 = None <-> _queue q = [].
Proof.
  unfold dequeue, wait_for_get.
  destruct (_queue q) as [|event items]; simpl; by split.
Qed.

(** X8: [dequeue] after [enqueue]: on an empty queue it gives the event back
    and the queue is as before; otherwise it returns what it would have
    returned before the [enqueue], and the new event stays queued behind the
    rest. *)
Theorem dequeue_after_enqueue (event : Event) (q : AsyncEventQueue) :
  dequeue (enqueue event q)
  = match _queue q with
    | [] => (Some event, q)
    | _ :: _ => ((dequeue q).1, enqueue event (dequeue q).2)
    end.
Proof.
  destruct q as [p items]. unfold dequeue, enqueue, wait_for_get, Queue_put.
  simpl. by destruct items.
Qed.

Lemma run_sublist (ops : list Op) (q : AsyncEventQueue) :
  successes (run ops q).1 ++ _queue (run ops q).2
  `sublist_of` _queue q ++ enqueued ops.
Proof.
  revert q. induction ops as [|op ops IH]; intros q; simpl.
  - by rewrite app_nil_r.
  - destruct op as [event| |].
    + specialize (IH (enqueue event q)). simpl in IH. unfold Queue_put in IH.
      by rewrite <- app_assoc in IH.
    + destruct q as [p [|event items]]; unfold dequeue, wait_for_get; simpl.
      * specialize (IH (mkAsyncEventQueue p [])).
        destruct (run ops _) as [rs q']. simpl in *. done.
      * specialize (IH (mkAsyncEventQueue p items)).
        destruct (run ops _) as [rs q']. simpl in *. by constructor.
    + specialize (IH (clear q)). simpl in IH. rewrite drain_nil in IH.
      simpl in IH. etrans; [exact IH|]. apply sublist_inserts_l. done.
Qed.

(** X9: over any sequence of [enqueue], [dequeue] and [clear] calls on a new
    queue, the events the dequeues return, in the order returned, are a
    subsequence of the events enqueued, in the order enqueued: nothing is
    invented, duplicated or reordered; [clear] only drops events. *)
Theorem dequeued_sublist_of_enqueued (priority : bool) (ops : list Op) :
  successes (run ops (new priority)).1 `sublist_of` enqueued ops.
Proof.
  pose proof (run_sublist ops (new priority)) as H. simpl in H.
  etrans; [|exact H]. apply sublist_inserts_r. done.
Qed.

Lemma run_app (ops1 ops2 : list Op) (q : AsyncEventQueue) :
  run (ops1 ++ ops2) q
  = ((run ops1 q).1 ++ (run ops2 (run ops1 q).2).1,
     (run ops2 (run ops1 q).2).2).
Proof.
  revert q. induction ops1 as [|op ops1 IH]; intros q; simpl.
  - by destruct (run ops2 q).
  - destruct op as [event| |]; [apply IH| |apply IH].
    destruct (dequeue q) as [r q']. rewrite IH.
    by destruct (run ops1 q').
Qed.

Lemma run_enqueues (events : list Event) (q : AsyncEventQueue) :
  run (map Enqueue events) q
  = ([], mkAsyncEventQueue (_priority_mode q) (_queue q ++ events)).
Proof.
  revert q. induction events as [|event events IH]; intros q; simpl.
  - rewrite app_nil_r. by destruct q.
  - rewrite IH. simpl. unfold Queue_put. by rewrite <- app_assoc.
Qed.

Lemma run_dequeues (p : bool) (events : list Event) :
  run (replicate (length events) Dequeue) (mkAsyncEventQueue p events)
  = (map Some events, mkAsyncEventQueue p []).
Proof.
  induction events as [|event events IH]; simpl; [done|].
  unfold dequeue, wait_for_get. simpl. by rewrite IH.
Qed.

(** X10: enqueueing a list of events on a new queue and then dequeueing as
    many times returns exactly those events, in order, and leaves the queue
    as new. *)
Theorem enqueue_all_dequeue_all (priority : bool) (events : list Event) :
  run (map Enqueue events ++ replicate (length events) Dequeue)
    (new priority)
  = (map Some events, new priority).
Proof.
  rewrite run_app, run_enqueues. simpl. by rewrite run_dequeues.
Qed.

End MoreQueueFacts.

(** ** More of the transition engine *)

Section MoreEngineFacts.

Context {W : Type}.
Implicit Types (s : Sys W) (t chosen : Transition W) (event : Event).
Local Open Scope machine_scope.

(** The gate of [process_event]. *)
Lemma process_event_gate event s :
  _started (machine s) = false \/ _stopped (machine s) = true ->
  process_event event s = (Returns tt, s).
Proof.
  intros [Hidle|Hstopped]; unfold process_event.
  - by rewrite Hidle.
  - rewrite Hstopped. by rewrite orb_true_r.
Qed.

(** One step of the comprehension. *)
Lemma valid_transitions_cons event t (ts : list (Transition W)) s :
  valid_transitions event (t :: ts) s
  = if State_eqb (source t) (cursor s)
    then
      match evaluate_guards t event (world s) with
      | (Ret keep, w') =>
          match valid_transitions event ts
                  (mkSys (machine s) w' (calls s ++ [CallGuards t event])) with
          | (Returns rest, s2) =>
              (Returns (if keep then t :: rest else rest), s2)
          | other => other
          end
      | (Raise e, w') =>
          (Raises e, mkSys (machine s) w' (calls s ++ [CallGuards t event]))
      end
    else valid_transitions event ts s.
Proof.
  cbn [valid_transitions].
  unfold bind at 1, current_state at 1. cbv beta iota. fold (cursor s).
  destruct (State_eqb (source t) (cursor s)).
  - unfold bind at 1, call_evaluate_guards, bind at 1, record.
    cbn [fst snd machine world calls]. cbv beta iota.
    destruct (evaluate_guards t event (world s)) as [[keep|e] w']; [|done].
    unfold bind, ret.
    by destruct (valid_transitions event ts _) as [[rest|e|] s2].
  - unfold bind, ret.
    by destruct (valid_transitions event ts s) as [[rest|e|] s2].
Qed.

Lemma valid_transitions_app event (l1 l2 : list (Transition W)) s
    (v1 : list (Transition W)) s1 :
  valid_transitions event l1 s = (Returns v1, s1) ->
  valid_transitions event (l1 ++ l2) s
  = match valid_transitions event l2 s1 with
    | (Returns v2, s2) => (Returns (v1 ++ v2), s2)
    | other => other
    end.
Proof.
  revert s v1. induction l1 as [|t l1 IH]; intros s v1 Hrun.
  - injection Hrun as <- <-. simpl.
    by destruct (valid_transitions event l2 s) as [[v2|e|] s2].
  - rewrite valid_transitions_cons in Hrun.
    rewrite <- app_comm_cons, valid_transitions_cons.
    assert (Hcur : forall w c, cursor (mkSys (machine s) w c) = cursor s)
      by done.
    destruct (State_eqb (source t) (cursor s)).
    + destruct (evaluate_guards t event (world s)) as [[keep|e] w']; [|done].
      destruct (valid_transitions event l1 _) as [[rest|e|] s2] eqn:Er;
        [|done|done].
      injection Hrun as <- <-. rewrite (IH _ _ Er).
      destruct (valid_transitions event l2 _) as [[v2|e|] s3]; [|done|done].
      by destruct keep.
    + by apply IH.
Qed.

(** X11: the guards are called only for transitions out of the current
    state, in table order and once per table entry, up to the first guard
    that raises; when none raises, every transition out of the current state
    has had its guards called.  Transitions out of other states are never
    asked. *)
Theorem guards_called_only_for_current_state event
    (transitions : list (Transition W)) s
    (r : Outcome (list (Transition W))) s' :
  valid_transitions event transitions s = (r, s') ->
  exists evaluated,
    calls s' = calls s ++ map (fun t => CallGuards t event) evaluated
    /\ evaluated `prefix_of`
         List.filter (fun t => State_eqb (source t) (cursor s)) transitions
    /\ forall valid,
         r = Returns valid ->
         evaluated
         = List.filter (fun t => State_eqb (source t) (cursor s)) transitions.
Proof.
  revert s r s'. induction transitions as [|t ts IH]; intros s r s' Hrun.
  - injection Hrun as <- <-. exists []. simpl.
    split; [by rewrite app_nil_r|]. split; done.
  - rewrite valid_transitions_cons in Hrun. cbn [List.filter].
    destruct (State_eqb (source t) (cursor s)) eqn:Esrc.
    + destruct (evaluate_guards t event (world s)) as [[keep|e] w'].
      * destruct (valid_transitions event ts _) as [r1 s2] eqn:Er.
        destruct (IH _ _ _ Er) as (evaluated & Hcalls & Hpre & Hall).
        cbn [calls] in Hcalls. unfold cursor in Hpre, Hall.
        cbn [machine] in Hpre, Hall. fold (cursor s) in Hpre, Hall.
        exists (t :: evaluated).
        assert (Hs2 : s' = s2) by (destruct r1; by injection Hrun).
        subst s'. simpl. rewrite Hcalls, <- app_assoc. simpl.
        split; [done|]. split; [by apply prefix_cons|].
        intros valid ->. destruct r1 as [rest|e|]; [|done|done].
        by rewrite (Hall rest eq_refl).
      * injection Hrun as <- <-. exists [t]. simpl.
        split; [done|]. split; [|done].
        apply prefix_cons, prefix_nil.
    + by apply IH.
Qed.

(** What the [try] block does to the machine: nothing, or it moves the
    cursor to the target of a registered transition out of the current
    state. *)
Lemma process_event_try_machine event s (r : Outcome unit) s2 :
  process_event_try event s = (r, s2) ->
  machine s2 = machine s
  \/ exists t,
       t ∈ get_transitions (_context (machine s))
       /\ State_eqb (source t) (cursor s) = true
       /\ machine s2
          = mkMachine (ctx_set_current_state (target t) (_context (machine s)))
              (_hooks (machine s)) (_lock (machine s)) (_started (machine s))
              (_stopped (machine s)).
Proof.
  unfold process_event_try, context_get_transitions, bind.
  cbv beta iota zeta.
  destruct (valid_transitions event _ s) as [rv s1] eqn:Ev.
  destruct (valid_transitions_frame _ _ _ _ _ Ev) as (Hm & Hp & Hv).
  destruct rv as [valid|e|]; [| |done].
  - destruct (Hv valid eq_refl) as [Hsub Hsrc].
    destruct valid as [|t0 valid0] eqn:Evalid.
    + intros [= <- <-]. by left.
    + rewrite <- Evalid in *.
      destruct (sorted_reverse_head get_priority valid)
        as (chosen & _ & _ & rest & _ & Hsort & _); [by subst|].
      assert (Hin : chosen ∈ valid).
      { rewrite <- (sorted_reverse_perm get_priority valid), Hsort. left. }
      assert (Hmoved :
        exists t,
          t ∈ get_transitions (_context (machine s))
          /\ State_eqb (source t) (cursor s) = true
          /\ mkMachine
               (ctx_set_current_state (target chosen) (_context (machine s1)))
               (_hooks (machine s1)) (_lock (machine s1))
               (_started (machine s1)) (_stopped (machine s1))
             = mkMachine
                 (ctx_set_current_state (target t) (_context (machine s)))
                 (_hooks (machine s)) (_lock (machine s))
                 (_started (machine s)) (_stopped (machine s))).
      { exists chosen. split; [by eapply elem_of_sublist|].
        split; [|by rewrite Hm].
        rewrite Forall_forall in Hsrc. by apply Hsrc. }
      rewrite (fire_step _ _ _ _ _ Hsort). unfold bind at 1.
      rewrite leave_eq. cbv zeta.
      destruct (execute_on_exit _ _ _) as [[e|] w2];
        [intros [= <- <-]; by left|].
      destruct (on_exit _ w2) as [[e|] w3];
        [intros [= <- <-]; by left|].
      destruct (execute_actions chosen event w3) as [[e|] w4];
        [intros [= <- <-]; by left|].
      rewrite arrive_eq. cbv zeta. cbn [machine world calls].
      destruct (on_enter _ w4) as [[e|] w5];
        [intros [= <- <-]; by right|].
      destruct (execute_on_enter _ _ w5) as [[e|] w6];
        intros [= <- <-]; by right.
  - intros [= <- <-]. by left.
Qed.

Lemma process_event_keeps event s :
  get_transitions (_context (machine (process_event event s).2))
  = get_transitions (_context (machine s))
  /\ _hooks (machine (process_event event s).2) = _hooks (machine s)
  /\ _started (machine (process_event event s).2) = _started (machine s)
  /\ _stopped (machine (process_event event s).2) = _stopped (machine s)
  /\ _lock (machine (process_event event s).2) = _lock (machine s)
  /\ (cursor (process_event event s).2 = cursor s
      \/ exists t,
           t ∈ get_transitions (_context (machine s))
           /\ State_eqb (source t) (cursor s) = true
           /\ cursor (process_event event s).2 = target t).
Proof.
  destruct (_started (machine s)) eqn:Hstart;
    [|rewrite process_event_gate by (by left);
      repeat split; (done || by left)].
  destruct (_stopped (machine s)) eqn:Hstop;
    [rewrite process_event_gate by (by right);
     repeat split; (done || by left)|].
  destruct (_lock (machine s)) eqn:Hlock.
  { unfold process_event, bind, lock_acquire. rewrite Hstart, Hstop, Hlock.
    simpl. rewrite Hstart, Hstop, Hlock. repeat split; (done || by left). }
  rewrite (process_event_started _ _ Hstart Hstop Hlock).
  destruct (process_event_try event (set_lock true s)) as [r s2] eqn:Htry.
  destruct (process_event_try_frame _ _ _ _ Htry) as (Hp & Hlk & _).
  cbn in Hlk. rewrite (guarded_eq _ _ _ _ Htry Hlk).
  destruct (process_event_try_machine _ _ _ _ Htry)
    as [Hmach|(t & Hin & Hsrc & Hmach)];
    destruct r as [[]|e|]; try done; try destruct (exn_is_Exception e);
    unfold cursor; cbn; rewrite Hmach; cbn;
    rewrite ?Hstart, ?Hstop; repeat split; try done; try (by left);
    right; by exists t.
Qed.

(** X12: whatever the machine, the event and the user code, [process_event]
    leaves the transition table, the hooks, the flags and the lock as they
    were, and the current state afterwards is either the one before or the
    target of a registered transition out of it. *)
Theorem process_event_frame event s :
  get_transitions (_context (machine (process_event event s).2))
  = get_transitions (_context (machine s))
  /\ _hooks (machine (process_event event s).2) = _hooks (machine s)
  /\ _started (machine (process_event event s).2) = _started (machine s)
  /\ _stopped (machine (process_event event s).2) = _stopped (machine s)
  /\ _lock (machine (process_event event s).2) = _lock (machine s)
  /\ (cursor (process_event event s).2 = cursor s
      \/ exists t,
           t ∈ get_transitions (_context (machine s))
           /\ State_eqb (source t) (cursor s) = true
           /\ cursor (process_event event s).2 = target t).
Proof. exact (process_event_keeps event s). Qed.

(** An exception of the comprehension is an exception of a guard of the
    table. *)
Lemma valid_transitions_raises event (transitions : list (Transition W)) s
    (e : exn) s' :
  valid_transitions event transitions s = (Raises e, s') ->
  exists t w w',
    t ∈ transitions /\ evaluate_guards t event w = (Raise e, w').
Proof.
  revert s. induction transitions as [|t ts IH]; intros s Hrun; [done|].
  rewrite valid_transitions_cons in Hrun.
  assert (Hrest : forall s0,
            valid_transitions event ts s0 = (Raises e, s') ->
            exists t0 w w',
              t0 ∈ t :: ts /\ evaluate_guards t0 event w = (Raise e, w')).
  { intros s0 H0. destruct (IH _ H0) as (t0 & w & w' & Hin & Hg).
    exists t0, w, w'. split; [by right|done]. }
  destruct (State_eqb (source t) (cursor s)); [|by eapply Hrest].
  destruct (evaluate_guards t event (world s)) as [[keep|e0] w'] eqn:Hg.
  - destruct (valid_transitions event ts _) as [[rest|e0|] s2] eqn:Er;
      [done| |done].
    injection Hrun as -> ->. by eapply Hrest.
  - injection Hrun as -> _. exists t, (world s), w'. split; [left|done].
Qed.

(** With user code that keeps to ordinary exceptions, the [try] block
    raises nothing but instances of [Exception]. *)
Lemma process_event_try_raises_Exceptions event s (e : exn) s2 :
  ordinary_user_code (machine s) ->
  process_event_try event s = (Raises e, s2) ->
  exn_is_Exception e = true.
Proof.
  intros (Hcur & Htable & Hhooks & _).
  unfold process_event_try, context_get_transitions, bind.
  cbv beta iota zeta.
  destruct (valid_transitions event _ s) as [rv s1] eqn:Ev.
  destruct (valid_transitions_frame _ _ _ _ _ Ev) as (Hm & Hp & Hv).
  rewrite Forall_forall in Htable.
  destruct rv as [valid|e0|]; [| |done].
  - destruct (Hv valid eq_refl) as [Hsub _].
    destruct valid as [|t0 valid0] eqn:Evalid; [done|].
    rewrite <- Evalid in *.
    destruct (sorted_reverse_head get_priority valid)
      as (chosen & _ & _ & rest & _ & Hsort & _); [by subst|].
    assert (Hin : chosen ∈ get_transitions (_context (machine s))).
    { eapply elem_of_sublist; [|exact Hsub].
      rewrite <- (sorted_reverse_perm get_priority valid), Hsort. left. }
    destruct (Htable _ Hin) as ((Henter & _) & Hact & _).
    rewrite (fire_step _ _ _ _ _ Hsort). unfold bind at 1.
    rewrite leave_eq. cbv zeta. unfold cursor. rewrite Hm.
    destruct (execute_on_exit _ _ (world s1)) as [[e1|] w2] eqn:E2.
    { intros [= <- _]. eapply (proj2 (Hhooks _)). by rewrite E2. }
    destruct (on_exit _ w2) as [[e1|] w3] eqn:E3.
    { intros [= <- _]. eapply (proj2 Hcur). by rewrite E3. }
    destruct (execute_actions chosen event w3) as [[e1|] w4] eqn:E4.
    { intros [= <- _]. eapply Hact. by rewrite E4. }
    rewrite arrive_eq. cbv zeta. cbn [machine world calls]. rewrite ?Hm.
    destruct (on_enter _ w4) as [[e1|] w5] eqn:E5.
    { intros [= <- _]. eapply Henter. by rewrite E5. }
    destruct (execute_on_enter _ _ w5) as [[e1|] w6] eqn:E6; [|done].
    intros [= <- _]. eapply (proj1 (Hhooks _)). by rewrite E6.
  - intros [= <- _].
    destruct (valid_transitions_raises _ _ _ _ _ Ev) as (t & w & w' & Hin & Hg).
    destruct (Htable _ Hin) as (_ & _ & Hguard). by eapply Hguard.
Qed.

(** With the lock free and user code that keeps to ordinary exceptions,
    [process_event] returns, and the user code of the machine it leaves is
    as ordinary. *)
Lemma process_event_returns event s :
  _lock (machine s) = false ->
  ordinary_user_code (machine s) ->
  (process_event event s).1 = Returns tt
  /\ ordinary_user_code (machine (process_event event s).2).
Proof.
  intros Hlock Hok. split.
  - destruct (_started (machine s)) eqn:Hstart;
      [|by rewrite process_event_gate by (by left)].
    destruct (_stopped (machine s)) eqn:Hstop;
      [by rewrite process_event_gate by (by right)|].
    rewrite (process_event_started _ _ Hstart Hstop Hlock).
    destruct (process_event_try event (set_lock true s)) as [r s2] eqn:Htry.
    destruct (process_event_try_frame _ _ _ _ Htry) as (Hp & Hlk & Hhk & _).
    cbn in Hlk, Hhk. rewrite (guarded_eq _ _ _ _ Htry Hlk).
    destruct r as [[]|e|]; [done| |done].
    rewrite (process_event_try_raises_Exceptions event (set_lock true s) e s2)
      by done.
    cbn. rewrite Hhk. by rewrite (proj2 (proj2 (proj2 Hok))).
  - destruct (process_event_keeps event s)
      as (Htab & Hhk & _ & _ & _ & Hcur).
    destruct Hok as (Hst & Htable & Hhooks & Hquiet).
    unfold ordinary_user_code. rewrite Htab, Hhk.
    split; [|done]. fold (cursor (process_event event s).2).
    destruct Hcur as [->|(t & Hin & _ & ->)]; [done|].
    rewrite Forall_forall in Htable. by destruct (Htable _ Hin) as (? & _).
Qed.

(** X13: when no transition out of the current state passes its guards, the
    event is dropped: [process_event] returns, and besides the guard calls
    nothing was called and the machine is as before. *)
Theorem process_event_no_match event s s1 :
  _started (machine s) = true ->
  _stopped (machine s) = false ->
  _lock (machine s) = false ->
  valid_transitions event (get_transitions (_context (machine s)))
    (set_lock true s) = (Returns [], s1) ->
  process_event event s = (Returns tt, set_lock false s1)
  /\ machine (set_lock false s1) = machine s.
Proof.
  intros Hstart Hstop Hlock Hvalid.
  destruct (valid_transitions_frame _ _ _ _ _ Hvalid) as (Hm & _ & _).
  assert (Htry : process_event_try event (set_lock true s) = (Returns tt, s1))
    by (by rewrite (process_event_try_step _ _ _ _ Hvalid)).
  rewrite (process_event_started _ _ Hstart Hstop Hlock).
  rewrite (guarded_eq _ _ _ _ Htry) by (by rewrite Hm).
  split; [done|]. unfold set_lock, with_machine. cbn. rewrite Hm. cbn.
  destruct (machine s) as [ctx h lk st sp]. cbn in *. by subst.
Qed.

(** X14: a guard that raises ends the event: the guards of the transitions
    registered after it are not called and no transition fires, even if some
    registered before it were valid.  An instance of [Exception] goes to the
    error hooks, and [process_event] returns unless they raise; any other
    exception reaches the caller and the error hooks are not called. *)
Theorem raising_guard_aborts_event event s
    (before after valid0 : list (Transition W)) t s1 (e : exn) (w' : W) :
  _started (machine s) = true ->
  _stopped (machine s) = false ->
  _lock (machine s) = false ->
  get_transitions (_context (machine s)) = before ++ t :: after ->
  valid_transitions event before (set_lock true s) = (Returns valid0, s1) ->
  State_eqb (source t) (cursor s) = true ->
  evaluate_guards t event (world s1) = (Raise e, w') ->
  process_event event s
  = if exn_is_Exception e
    then
      (match (execute_on_error (_hooks (machine s)) e w').1 with
       | None => Returns tt
       | Some e' => Raises e'
       end,
       mkSys (machine s) (execute_on_error (_hooks (machine s)) e w').2
         (calls s1 ++ [CallGuards t event; CallHookError e]))
    else (Raises e, mkSys (machine s) w' (calls s1 ++ [CallGuards t event])).
Proof.
  intros Hstart Hstop Hlock Htable Hbefore Hsrc Hguard.
  destruct (valid_transitions_frame _ _ _ _ _ Hbefore) as (Hm & _ & _).
  assert (Hcur : cursor s1 = cursor s) by (unfold cursor; by rewrite Hm).
  assert (Htry :
    process_event_try event (set_lock true s)
    = (Raises e, mkSys (machine s1) w' (calls s1 ++ [CallGuards t event]))).
  { unfold process_event_try, context_get_transitions, bind.
    cbv beta iota zeta. change (machine (set_lock true s)) with
      (mkMachine (_context (machine s)) (_hooks (machine s)) true
         (_started (machine s)) (_stopped (machine s))).
    cbn [_context]. rewrite Htable.
    rewrite (valid_transitions_app _ _ _ _ _ _ Hbefore).
    rewrite valid_transitions_cons, Hcur, Hsrc, Hguard. done. }
  rewrite (process_event_started _ _ Hstart Hstop Hlock).
  rewrite (guarded_eq _ _ _ _ Htry) by (by rewrite Hm).
  destruct (exn_is_Exception e); cbn; rewrite Hm; cbn;
    rewrite <- ?app_assoc; cbn; f_equal; unfold set_lock, with_machine; cbn;
    destruct (machine s) as [ctx h lk st sp]; cbn in *; by subst.
Qed.

(** X15: once the cursor has moved, an exception does not move it back: when
    the enter behavior of the target, or the enter hooks, raise, the current
    state after [process_event] is the target; an instance of [Exception]
    has gone to the error hooks, as the last call, and anything else has
    reached the caller. *)
Theorem process_event_cursor_moved_when_entering_fails event s
    (valid : list (Transition W)) s1 chosen (rest : list (Transition W)) s2
    (e : exn) :
  _started (machine s) = true ->
  _stopped (machine s) = false ->
  _lock (machine s) = false ->
  valid_transitions event (get_transitions (_context (machine s)))
    (set_lock true s) = (Returns valid, s1) ->
  sorted_reverse get_priority valid = chosen :: rest ->
  leave chosen event s1 = (Returns tt, s2) ->
  (on_enter (target chosen) (world s2)).1 = Some e
  \/ (exists w5,
        on_enter (target chosen) (world s2) = (None, w5)
        /\ (execute_on_enter (_hooks (machine s)) (target chosen) w5).1
           = Some e) ->
  cursor (process_event event s).2 = target chosen
  /\ (exn_is_Exception e = true ->
      last (calls (process_event event s).2) = Some (CallHookError e))
  /\ (exn_is_Exception e = false ->
      (process_event event s).1 = Raises e).
Proof.
  intros Hstart Hstop Hlock Hvalid Hsort Hleave Hcase.
  destruct (valid_transitions_frame _ _ _ _ _ Hvalid) as (Hm & _ & _).
  assert (Hm2 : machine s2 = machine s1).
  { rewrite leave_eq in Hleave. cbv zeta in Hleave.
    destruct (execute_on_exit _ _ _) as [[?|] w2]; [done|].
    destruct (on_exit _ w2) as [[?|] w3]; [done|].
    destruct (execute_actions chosen event w3) as [[?|] w4]; [done|].
    by injection Hleave as <-. }
  assert (Harrive :
    exists s3,
      arrive chosen s2 = (Raises e, s3)
      /\ cursor s3 = target chosen /\ _lock (machine s3) = true).
  { rewrite arrive_eq. cbv zeta. rewrite Hm2, Hm. cbn [_hooks set_lock
      with_machine machine].
    destruct Hcase as [Hent|(w5 & Hent & Hhook)].
    - destruct (on_enter _ (world s2)) as [r w5]. simpl in Hent. subst r.
      by eexists.
    - rewrite Hent.
      destruct (execute_on_enter _ _ w5) as [r w6]. simpl in Hhook. subst r.
      by eexists. }
  destruct Harrive as (s3 & Harrive & Hcur3 & Hlk3).
  assert (Htry : process_event_try event (set_lock true s) = (Raises e, s3)).
  { rewrite (process_event_try_fire _ _ _ _ Hvalid)
      by (intros ->; discriminate Hsort).
    rewrite (fire_step _ _ _ _ _ Hsort). unfold bind. by rewrite Hleave. }
  rewrite (process_event_started _ _ Hstart Hstop Hlock).
  rewrite (guarded_eq _ _ _ _ Htry Hlk3).
  destruct (exn_is_Exception e); cbn.
  - split; [exact Hcur3|]. split; [intros _; apply last_snoc|done].
  - split; [exact Hcur3|]. split; done.
Qed.

End MoreEngineFacts.

(** ** start and stop *)

Section LifecycleFacts.

Context {W : Type}.
Implicit Types (s : Sys W) (env : Collaborators W) (event : Event).
Local Open Scope machine_scope.

(** [start] on a machine that is not started, with the lock free, outcome by
    outcome. *)
Lemma start_unlocked env s :
  _started (machine s) = false ->
  _lock (machine s) = false ->
  start env s
  = let m := machine s in
    let after ctx started :=
      mkMachine ctx (_hooks m) false started (_stopped m) in
    match validate_state_machine env
            (mkMachine (_context m) (_hooks m) true false (_stopped m))
            (world s) with
    | (Some e, w1) => (Raises e, mkSys (after (_context m) false) w1 (calls s))
    | (None, w1) =>
        match context_start env (_context m) w1 with
        | (Some e, (ctx', w2)) =>
            (Raises e, mkSys (after ctx' false) w2 (calls s))
        | (None, (ctx', w2)) =>
            let cur := get_current_state ctx' in
            match execute_on_enter (_hooks m) cur w2 with
            | (Some e, w3) =>
                (Raises e,
                 mkSys (after ctx' false) w3 (calls s ++ [CallHookEnter cur]))
            | (None, w3) =>
                (Returns tt,
                 mkSys (after ctx' true) w3 (calls s ++ [CallHookEnter cur]))
            end
        end
    end.
Proof.
  intros Hstart Hlock.
  unfold start, bind, lock_acquire. rewrite Hstart, Hlock.
  unfold try_finally, start_try, bind, call_validator, run_callback,
    call_context, hooks, current_state, invoke, record, run_callback,
    set_started, lock_release, set_lock, with_machine, bind.
  cbn. rewrite Hstart.
  destruct (validate_state_machine env _ (world s)) as [[e|] w1]; cbn;
    [done|].
  destruct (context_start env _ w1) as [[e|] [ctx' w2]]; cbn; [done|].
  destruct (execute_on_enter _ _ w2) as [[e|] w3]; cbn; done.
Qed.

(** [stop] on a machine that is not stopped, with the lock free. *)
Lemma stop_unlocked env s :
  _stopped (machine s) = false ->
  _lock (machine s) = false ->
  stop env s
  = let m := machine s in
    let cur := cursor s in
    let after ctx stopped :=
      mkMachine ctx (_hooks m) false (_started m) stopped in
    match execute_on_exit (_hooks m) cur (world s) with
    | (Some e, w1) =>
        (Raises e,
         mkSys (after (_context m) false) w1 (calls s ++ [CallHookExit cur]))
    | (None, w1) =>
        match context_stop env (_context m) w1 with
        | (r, (ctx', w2)) =>
            (match r with None => Returns tt | Some e => Raises e end,
             mkSys (after ctx' (match r with None => true | _ => false end))
               w2 (calls s ++ [CallHookExit cur]))
        end
    end.
Proof.
  intros Hstop Hlock.
  unfold stop, bind, lock_acquire. rewrite Hstop, Hlock.
  unfold try_finally, stop_try, bind, call_context, hooks, current_state,
    invoke, record, run_callback, set_stopped, lock_release, set_lock,
    with_machine, bind, cursor.
  cbn. rewrite Hstop.
  destruct (execute_on_exit _ _ (world s)) as [[e|] w1]; cbn; [done|].
  destruct (context_stop env _ w1) as [[e|] [ctx' w2]]; cbn; done.
Qed.

(** X16: [start] on a machine that is not started, with the lock free, either
    returns, and then the machine is started and the last call was the enter
    hooks for the current state, or raises, and then the machine is not
    started and the error hooks were not called; the lock is released and
    [_stopped] is as before either way. *)
Theorem start_outcome env s :
  _started (machine s) = false ->
  _lock (machine s) = false ->
  _lock (machine (start env s).2) = false
  /\ _stopped (machine (start env s).2) = _stopped (machine s)
  /\ _hooks (machine (start env s).2) = _hooks (machine s)
  /\ (((start env s).1 = Returns tt
       /\ _started (machine (start env s).2) = true
       /\ calls (start env s).2
          = calls s ++ [CallHookEnter (cursor (start env s).2)])
      \/ (exists e,
           (start env s).1 = Raises e
           /\ _started (machine (start env s).2) = false
           /\ (calls (start env s).2 = calls s
               \/ calls (start env s).2
                  = calls s ++ [CallHookEnter (cursor (start env s).2)]))).
Proof.
  intros Hstart Hlock. rewrite (start_unlocked _ _ Hstart Hlock). cbv zeta.
  destruct (validate_state_machine env _ (world s)) as [[e|] w1]; cbn.
  { repeat split; try done. right. exists e. repeat split; try done.
    by left. }
  destruct (context_start env _ w1) as [[e|] [ctx' w2]]; cbn.
  { repeat split; try done. right. exists e. repeat split; try done.
    by left. }
  destruct (execute_on_enter _ _ w2) as [[e|] w3]; cbn.
  - repeat split; try done. right. exists e. repeat split; try done.
    by right.
  - repeat split; try done. by left.
Qed.

(** X17: when the validator rejects the machine, [start] raises the
    validator's exception and nothing else has run: the context is not
    started, no hook is called, the machine is exactly as before, and
    [process_event] is still a no-op. *)
Theorem start_rejected_by_validator env s (e : exn) (w1 : W) :
  _started (machine s) = false ->
  _lock (machine s) = false ->
  validate_state_machine env (machine (set_lock true s)) (world s)
  = (Some e, w1) ->
  start env s = (Raises e, mkSys (machine s) w1 (calls s))
  /\ forall event,
       process_event event (mkSys (machine s) w1 (calls s))
       = (Returns tt, mkSys (machine s) w1 (calls s)).
Proof.
  intros Hstart Hlock Hval. split.
  - rewrite (start_unlocked _ _ Hstart Hlock). cbv zeta.
    unfold set_lock, with_machine in Hval. cbn in Hval.
    rewrite Hstart in Hval. rewrite Hval.
    destruct (machine s) as [ctx h lk st sp]. cbn in *. by subst.
  - intros event. apply process_event_gate. by left.
Qed.

(** X18: after a [stop] that returned, the machine is stopped: every later
    [process_event] and every later [stop] returns at once and changes
    nothing.  ([stop] does not ask whether the machine was started.) *)
Theorem stop_ends_processing env s :
  (stop env s).1 = Returns tt ->
  _stopped (machine (stop env s).2) = true
  /\ (forall event,
        process_event event (stop env s).2 = (Returns tt, (stop env s).2))
  /\ stop env (stop env s).2 = (Returns tt, (stop env s).2).
Proof.
  intros Hret.
  assert (Hstopped : _stopped (machine (stop env s).2) = true).
  { destruct (_stopped (machine s)) eqn:Hstop.
    - unfold stop. by rewrite Hstop.
    - destruct (_lock (machine s)) eqn:Hlock.
      + unfold stop, bind, lock_acquire in Hret.
        by rewrite Hstop, Hlock in Hret.
      + rewrite (stop_unlocked _ _ Hstop Hlock) in Hret |- *.
        cbv zeta in Hret |- *.
        destruct (execute_on_exit _ _ (world s)) as [[e|] w1]; [done|].
        by destruct (context_stop env _ w1) as [[e|] [ctx' w2]]. }
  split; [done|]. split.
  - intros event. apply process_event_gate. by right.
  - unfold stop at 1. by rewrite Hstopped.
Qed.

(** X19: when [stop] raises (the exit hooks or the context's [stop] raised),
    the machine is not stopped and keeps its started flag, and the lock is
    released: the machine goes on processing events. *)
Theorem stop_raises_keeps_running env s (e : exn) :
  _stopped (machine s) = false ->
  _lock (machine s) = false ->
  (stop env s).1 = Raises e ->
  _stopped (machine (stop env s).2) = false
  /\ _started (machine (stop env s).2) = _started (machine s)
  /\ _lock (machine (stop env s).2) = false
  /\ calls (stop env s).2 = calls s ++ [CallHookExit (cursor s)].
Proof.
  intros Hstop Hlock. rewrite (stop_unlocked _ _ Hstop Hlock). cbv zeta.
  destruct (execute_on_exit _ _ (world s)) as [[e1|] w1]; [done|].
  by destruct (context_stop env _ w1) as [[e2|] [ctx' w2]].
Qed.

(** [start] leaves [_stopped] and the hooks alone, and a free lock free. *)
Lemma start_keeps env s :
  _stopped (machine (start env s).2) = _stopped (machine s)
  /\ _hooks (machine (start env s).2) = _hooks (machine s)
  /\ _lock (machine (start env s).2) = _lock (machine s).
Proof.
  destruct (_started (machine s)) eqn:Hstart.
  { unfold start. by rewrite Hstart. }
  destruct (_lock (machine s)) eqn:Hlock.
  { unfold start, bind, lock_acquire. by rewrite Hstart, Hlock. }
  rewrite (start_unlocked _ _ Hstart Hlock). cbv zeta.
  destruct (validate_state_machine env _ (world s)) as [[e|] w1]; [done|].
  destruct (context_start env _ w1) as [[e|] [ctx' w2]]; [done|].
  by destruct (execute_on_enter _ _ w2) as [[e|] w3].
Qed.

(** X20: nothing resets [_stopped]: once a machine is stopped, after any
    sequence of [start], [stop], [process_event] and [add_transition] calls
    it is still stopped and [process_event] is still a no-op, also when a
    later [start] succeeds. *)
Theorem stopped_is_permanent env (ops : list (Api W)) s :
  _stopped (machine s) = true ->
  _stopped (machine (api_run env ops s)) = true
  /\ forall event,
       process_event event (api_run env ops s)
       = (Returns tt, api_run env ops s).
Proof.
  intros Hstopped.
  assert (Hfinal : _stopped (machine (api_run env ops s)) = true).
  { revert s Hstopped. induction ops as [|op ops IH]; intros s Hstopped;
      [done|].
    simpl. apply IH. destruct op as [| |event|t]; simpl.
    - by destruct (start_keeps env s) as [-> _].
    - unfold stop. by rewrite Hstopped.
    - rewrite process_event_gate; [done|by right].
    - done. }
  split; [done|]. intros event.
  apply process_event_gate. by right.
Qed.

End LifecycleFacts.

(** ** The processing loop *)

Section LoopFacts.

Context {W : Type}.
Implicit Types (s : Sys W) (env : Collaborators W) (l : Loop W).

Lemma loop_rounds_add (k n : nat) l l' :
  loop_rounds k l = (Looping, l') ->
  loop_rounds (k + n) l = loop_rounds n l'.
Proof.
  revert l. induction k as [|k IH]; intros l Hk.
  - simpl in Hk. destruct (_running l) eqn:Hrun; simpl in Hk; [|done].
    by injection Hk as <-.
  - simpl in Hk |- *. destruct (_running l); simpl in Hk |- *; [|done].
    destruct (loop_round l) as [[[]|e|] l1]; [|done|done].
    by apply IH.
Qed.

Lemma loop_rounds_process (p : bool) (events : list Event) s :
  _lock (machine s) = false ->
  ordinary_user_code (machine s) ->
  loop_rounds (length events)
    (mkLoop s (Queue.mkAsyncEventQueue p events) true)
  = (Looping,
     mkLoop (process_all s events) (Queue.mkAsyncEventQueue p []) true).
Proof.
  revert s. induction events as [|event events IH]; intros s Hlock Hok.
  - done.
  - cbn [length loop_rounds _running negb]. unfold loop_round.
    cbn [loop_queue loop_sys _running Queue.dequeue Queue.wait_for_get
         Queue._queue Queue.Queue_get Queue._priority_mode].
    destruct (process_event_returns event s Hlock Hok) as [Hret Hok'].
    destruct (process_event_keeps event s) as (_ & _ & _ & _ & Hlk & _).
    destruct (process_event event s) as [r s'] eqn:Hpe.
    cbn in Hret, Hok', Hlk.
    subst r. unfold process_all. cbn [foldl]. rewrite Hpe. cbn [snd].
    apply IH; [by rewrite Hlk|done].
Qed.

(** X21: [start_loop] on a queue that holds [events]: when [start] returns
    and leaves the lock free and a machine whose user code raises nothing
    but instances of [Exception] and whose error hooks do not raise, the
    first [length events] rounds hand the events to [process_event] one
    after the other in queue order, leave the queue empty, and the loop goes
    on. *)
Theorem start_loop_processes_in_order env (p running : bool)
    (events : list Event) s :
  _lock (machine s) = false ->
  (start env s).1 = Returns tt ->
  ordinary_user_code (machine (start env s).2) ->
  start_loop env (length events)
    (mkLoop s (Queue.mkAsyncEventQueue p events) running)
  = (Looping,
     mkLoop (process_all (start env s).2 events)
       (Queue.mkAsyncEventQueue p []) true).
Proof.
  intros Hlock Hret Hok.
  destruct (start_keeps env s) as (_ & _ & Hlk).
  unfold start_loop. cbn [loop_sys loop_queue].
  destruct (start env s) as [r s'] eqn:Hstart. cbn in Hret, Hok, Hlk.
  subst r. cbn [snd].
  apply (loop_rounds_process p events s'); [by rewrite Hlk|done].
Qed.

(** X22: on an empty queue the loop idles: any number of rounds leaves the
    machine, the world and the queue as they are. *)
Theorem loop_idles_on_empty_queue (n : nat) l :
  _running l = true ->
  Queue._queue (loop_queue l) = [] ->
  loop_rounds n l = (Looping, l).
Proof.
  intros Hrun Hempty. destruct l as [s [p items] running].
  cbn in Hrun, Hempty. subst.
  induction n as [|n IH]; [done|].
  cbn [loop_rounds _running negb]. unfold loop_round. cbn. exact IH.
Qed.

(** X23: with a machine that has been stopped, the loop still takes events
    off the queue, one per round, and drops them: nothing is processed. *)
Theorem loop_drops_events_when_stopped (n : nat) l :
  _running l = true ->
  _stopped (machine (loop_sys l)) = true ->
  loop_rounds n l
  = (Looping,
     mkLoop (loop_sys l)
       (Queue.mkAsyncEventQueue (Queue._priority_mode (loop_queue l))
          (drop n (Queue._queue (loop_queue l))))
       true).
Proof.
  intros Hrun Hstopped. destruct l as [s [p items] running].
  cbn in Hrun, Hstopped |- *. subst running.
  revert items. induction n as [|n IH]; intros items.
  - by rewrite drop_0.
  - cbn [loop_rounds _running negb]. unfold loop_round.
    cbn [loop_queue loop_sys _running Queue.dequeue Queue.wait_for_get
         Queue._queue Queue.Queue_get Queue._priority_mode].
    destruct items as [|event items]; cbn.
    + rewrite IH. by rewrite drop_nil.
    + rewrite (process_event_gate event s) by (by right). apply IH.
Qed.

(** X24: the loop has no handler of its own: when [process_event] raises in
    a round (the error hooks raised), [start_loop] ends with that exception,
    and the events behind the one that failed stay in the queue. *)
Theorem loop_ends_when_round_raises (k n : nat) l l' (event : Event)
    (items : list Event) (e : exn) s' :
  loop_rounds k l = (Looping, l') ->
  _running l' = true ->
  Queue._queue (loop_queue l') = event :: items ->
  process_event event (loop_sys l') = (Raises e, s') ->
  loop_rounds (k + S n) l
  = (Ended (Raises e),
     mkLoop s'
       (Queue.mkAsyncEventQueue (Queue._priority_mode (loop_queue l')) items)
       true).
Proof.
  intros Hk Hrun Hqueue Hraise. rewrite (loop_rounds_add _ _ _ _ Hk).
  destruct l' as [s1 [p items1] running]. cbn in Hrun, Hqueue, Hraise |- *.
  subst. unfold loop_round. cbn. by rewrite Hraise.
Qed.

(** X25: [stop_loop] clears [_running] whether or not [stop] raises, and
    touches no event: at its next test the loop is left, with the queue as
    it was. *)
Theorem stop_loop_ends_loop env (n : nat) l :
  _running (stop_loop env l).2 = false
  /\ loop_queue (stop_loop env l).2 = loop_queue l
  /\ loop_rounds n (stop_loop env l).2 = (Left, (stop_loop env l).2).
Proof.
  unfold stop_loop. destruct (stop env (loop_sys l)) as [r s'].
  cbn. by destruct n.
Qed.

End LoopFacts.

(** ** Registration and selection *)

Section RegistrationFacts.

Context {W : Type}.
Implicit Types (s : Sys W) (t chosen : Transition W) (event : Event).

Lemma sorted_reverse_snoc_head {A : Type} (key : A -> Z) (l : list A)
    (x c : A) (rest : list A) :
  sorted_reverse key l = c :: rest ->
  exists rest',
    sorted_reverse key (l ++ [x])
    = (if key c <? key x then x else c) :: rest'.
Proof.
  revert c rest. induction l as [|a l IH]; intros c rest Hsort; [done|].
  simpl in Hsort |- *.
  destruct (sorted_reverse key l) as [|c' r] eqn:El.
  - destruct l as [|b l]; [|by pose proof (sorted_reverse_perm key (b :: l))
        as Hp; rewrite El in Hp; apply Permutation_nil_cons in Hp].
    simpl in Hsort |- *. injection Hsort as <- <-.
    destruct (Z.ltb_spec (key a) (key x)); by eexists.
  - destruct (IH c' r eq_refl) as (rest' & ->).
    simpl in Hsort |- *.
    destruct (Z.ltb_spec (key a) (key c')) as [H1|H1];
      injection Hsort as <- <-;
      destruct (Z.ltb_spec (key c') (key x)) as [H2|H2]; simpl.
    + destruct (Z.ltb_spec (key a) (key x)); [by eexists|lia].
    + destruct (Z.ltb_spec (key a) (key c')); [by eexists|lia].
    + destruct (Z.ltb_spec (key a) (key x)); by eexists.
    + destruct (Z.ltb_spec (key a) (key c')); [lia|].
      destruct (Z.ltb_spec (key a) (key x)); [lia|by eexists].
Qed.

(** X26: a transition registered after the others takes the event from the
    one chosen among them only with a strictly higher priority; with an
    equal or lower priority the earlier choice stands. *)
Theorem later_transition_needs_higher_priority
    (valid : list (Transition W)) chosen t s :
  choose valid s = (Returns chosen, s) ->
  choose (valid ++ [t]) s
  = (Returns (if get_priority chosen <? get_priority t then t else chosen),
     s).
Proof.
  unfold choose, item0. intros Hchoose.
  destruct (sorted_reverse get_priority valid) as [|c rest] eqn:Hsort;
    [done|].
  injection Hchoose as ->.
  by destruct (sorted_reverse_snoc_head get_priority valid t chosen rest Hsort)
    as (rest' & ->).
Qed.

Lemma valid_transitions_add event t0 (l : list (Transition W)) s
    (r : Outcome (list (Transition W))) s1 :
  valid_transitions event l s = (r, s1) ->
  valid_transitions event l (sys_add_transition t0 s)
  = (r, sys_add_transition t0 s1).
Proof.
  revert s r s1. induction l as [|t l IH]; intros s r s1 Hrun.
  - by injection Hrun as <- <-.
  - rewrite valid_transitions_cons in Hrun |- *.
    change (cursor (sys_add_transition t0 s)) with (cursor s).
    change (world (sys_add_transition t0 s)) with (world s).
    destruct (State_eqb (source t) (cursor s)); [|by apply IH].
    destruct (evaluate_guards t event (world s)) as [[keep|e] w'].
    + destruct (valid_transitions event l
                  (mkSys (machine s) w' (calls s ++ [CallGuards t event])))
        as [r1 s2] eqn:Er.
      pose proof (IH _ _ _ Er) as IH'.
      change (sys_add_transition t0
                (mkSys (machine s) w' (calls s ++ [CallGuards t event])))
        with (mkSys (machine (sys_add_transition t0 s)) w'
                (calls (sys_add_transition t0 s) ++ [CallGuards t event]))
        in IH'.
      rewrite IH'. destruct r1 as [rest|e|]; by injection Hrun as <- <-.
    + by injection Hrun as <- <-.
Qed.

Lemma valid_transitions_snoc_inert event t (l : list (Transition W)) s
    (r : Outcome (list (Transition W))) s1 :
  State_eqb (source t) (cursor s) = false ->
  valid_transitions event l s = (r, s1) ->
  valid_transitions event (l ++ [t]) s = (r, s1).
Proof.
  intros Hsrc. revert s r s1 Hsrc.
  induction l as [|t1 l IH]; intros s r s1 Hsrc Hrun.
  - injection Hrun as <- <-. simpl ((_ ++ _)).
    rewrite valid_transitions_cons, Hsrc. done.
  - rewrite <- app_comm_cons, valid_transitions_cons.
    rewrite valid_transitions_cons in Hrun.
    destruct (State_eqb (source t1) (cursor s)); [|by apply IH].
    destruct (evaluate_guards t1 event (world s)) as [[keep|e] w']; [|done].
    destruct (valid_transitions event l
                (mkSys (machine s) w' (calls s ++ [CallGuards t1 event])))
      as [r1 s2] eqn:Er.
    by rewrite (IH (mkSys (machine s) w' (calls s ++ [CallGuards t1 event]))
                  r1 s2 Hsrc Er).
Qed.

Lemma process_event_try_add event t s (r : Outcome unit) s2 :
  State_eqb (source t) (cursor s) = false ->
  process_event_try event s = (r, s2) ->
  process_event_try event (sys_add_transition t s)
  = (r, sys_add_transition t s2).
Proof.
  intros Hsrc.
  unfold process_event_try, context_get_transitions, bind.
  cbv beta iota zeta.
  change (get_transitions (_context (machine (sys_add_transition t s))))
    with (get_transitions (_context (machine s)) ++ [t]).
  destruct (valid_transitions event (get_transitions (_context (machine s))) s)
    as [rv s1] eqn:Ev.
  rewrite (valid_transitions_add event t _ _ _ _
             (valid_transitions_snoc_inert _ _ _ _ _ _ Hsrc Ev)).
  destruct rv as [valid|e|]; [|by intros [= <- <-]|by intros [= <- <-]].
  destruct valid as [|t1 valid1] eqn:Evalid; [by intros [= <- <-]|].
  rewrite <- Evalid.
  destruct (sorted_reverse_head get_priority valid)
    as (chosen & _ & _ & rest & _ & Hsort & _); [by subst|].
  rewrite !(fire_step _ _ _ _ _ Hsort). unfold bind.
  rewrite !leave_eq. cbv zeta.
  change (cursor (sys_add_transition t s1)) with (cursor s1).
  change (world (sys_add_transition t s1)) with (world s1).
  change (_hooks (machine (sys_add_transition t s1)))
    with (_hooks (machine s1)).
  destruct (execute_on_exit _ _ (world s1)) as [[e|] w2];
    [by intros [= <- <-]|].
  destruct (on_exit _ w2) as [[e|] w3]; [by intros [= <- <-]|].
  destruct (execute_actions chosen event w3) as [[e|] w4];
    [by intros [= <- <-]|].
  rewrite !arrive_eq. cbv zeta. cbn [machine world calls].
  change (_hooks (machine (sys_add_transition t s1)))
    with (_hooks (machine s1)).
  destruct (on_enter _ w4) as [[e|] w5]; [by intros [= <- <-]|].
  destruct (execute_on_enter _ _ w5) as [[e|] w6]; by intros [= <- <-].
Qed.

(** X27: registering a transition whose source is not the current state
    changes nothing in how the next event is processed: same outcome, same
    world, same calls, same current state; the table is one entry longer. *)
Theorem unrelated_transition_is_inert event t s :
  State_eqb (source t) (cursor s) = false ->
  process_event event (sys_add_transition t s)
  = ((process_event event s).1,
     sys_add_transition t (process_event event s).2).
Proof.
  intros Hsrc.
  destruct (_started (machine s)) eqn:Hstart;
    [|by rewrite !process_event_gate by (by left)].
  destruct (_stopped (machine s)) eqn:Hstop;
    [by rewrite !process_event_gate by (by right)|].
  destruct (_lock (machine s)) eqn:Hlock.
  { unfold process_event, bind, lock_acquire. cbn.
    by rewrite Hstart, Hstop, Hlock. }
  rewrite (process_event_started event s Hstart Hstop Hlock).
  rewrite (process_event_started event (sys_add_transition t s))
    by (by cbn).
  destruct (process_event_try event (set_lock true s)) as [r s2] eqn:Htry.
  destruct (process_event_try_frame _ _ _ _ Htry) as (_ & Hlk & _).
  cbn in Hlk.
  pose proof (process_event_try_add event t (set_lock true s) r s2 Hsrc Htry)
    as Hadd.
  rewrite (guarded_eq _ _ _ _ Htry Hlk).
  change (set_lock true (sys_add_transition t s))
    with (sys_add_transition t (set_lock true s)).
  rewrite (guarded_eq _ _ _ _ Hadd) by (by cbn).
  destruct r as [[]|e|]; [done| |done]. by destruct (exn_is_Exception e).
Qed.

End RegistrationFacts.

(** ** More runs on the machines of [Demo] and [DemoLifecycle] *)

Section MoreRuns.

Import Demo DemoLifecycle.

Lemma guards_called_only_for_current_state_witness :
  let s := set_lock true shuttle in
  let table := get_transitions (_context (machine s)) in
  exists evaluated,
    calls (valid_transitions ping table s).2
    = calls s ++ map (fun t => CallGuards t ping) evaluated
    /\ evaluated `prefix_of`
         List.filter (fun t => State_eqb (source t) (cursor s)) table
    /\ forall valid,
         (valid_transitions ping table s).1 = Returns valid ->
         evaluated
         = List.filter (fun t => State_eqb (source t) (cursor s)) table.
Proof.
  intros s table.
  apply (guards_called_only_for_current_state ping table s
           (valid_transitions ping table s).1
           (valid_transitions ping table s).2).
  reflexivity.
Defined.

Lemma process_event_no_match_witness :
  let s1 :=
    (valid_transitions ping (get_transitions (_context (machine unmatched)))
       (set_lock true unmatched)).2 in
  process_event ping unmatched = (Returns tt, set_lock false s1)
  /\ machine (set_lock false s1) = machine unmatched.
Proof.
  intros s1. apply (process_event_no_match ping unmatched s1); reflexivity.
Defined.

Lemma raising_guard_aborts_event_witness :
  let s1 := (valid_transitions ping [A_to_B] (set_lock true guarded_badly)).2 in
  let e := PyException "KeyError" "missing" None in
  let w' := ["guard raised"] in
  process_event ping guarded_badly
  = (match (execute_on_error (_hooks (machine guarded_badly)) e w').1 with
     | None => Returns tt
     | Some e' => Raises e'
     end,
     mkSys (machine guarded_badly)
       (execute_on_error (_hooks (machine guarded_badly)) e w').2
       (calls s1 ++ [CallGuards A_to_C_guarded ping; CallHookError e])).
Proof.
  intros s1 e w'.
  apply (raising_guard_aborts_event ping guarded_badly [A_to_B] [] [A_to_B]
           A_to_C_guarded s1 e w'); reflexivity.
Defined.

Lemma process_event_cursor_moved_when_entering_fails_witness :
  let e := PyException "RuntimeError" "Trap.on_enter failed" None in
  cursor (process_event ping trapped).2 = target A_to_Trap
  /\ (exn_is_Exception e = true ->
      last (calls (process_event ping trapped).2) = Some (CallHookError e))
  /\ (exn_is_Exception e = false ->
      (process_event ping trapped).1 = Raises e).
Proof.
  intros e.
  apply (process_event_cursor_moved_when_entering_fails ping trapped
           [A_to_Trap]
           (valid_transitions ping
              (get_transitions (_context (machine trapped)))
              (set_lock true trapped)).2
           A_to_Trap []
           (leave A_to_Trap ping
              (valid_transitions ping
                 (get_transitions (_context (machine trapped)))
                 (set_lock true trapped)).2).2
           e).
  - reflexivity.
  - reflexivity.
  - reflexivity.
  - reflexivity.
  - reflexivity.
  - reflexivity.
  - left. reflexivity.
Defined.

Lemma later_transition_needs_higher_priority_witness :
  choose ([A_to_B; A_to_C_first] ++ [A_to_B_second]) contested
  = (Returns (if get_priority A_to_C_first <? get_priority A_to_B_second
              then A_to_B_second else A_to_C_first),
     contested).
Proof.
  apply (later_transition_needs_higher_priority [A_to_B; A_to_C_first]
           A_to_C_first A_to_B_second contested).
  reflexivity.
Defined.

Lemma unrelated_transition_is_inert_witness :
  process_event ping (sys_add_transition B_to_A scenario)
  = ((process_event ping scenario).1,
     sys_add_transition B_to_A (process_event ping scenario).2).
Proof.
  apply (unrelated_transition_is_inert ping B_to_A scenario). reflexivity.
Defined.

Lemma start_outcome_witness :
  _lock (machine (start lenient fresh).2) = false
  /\ _stopped (machine (start lenient fresh).2) = _stopped (machine fresh)
  /\ _hooks (machine (start lenient fresh).2) = _hooks (machine fresh)
  /\ (((start lenient fresh).1 = Returns tt
       /\ _started (machine (start lenient fresh).2) = true
       /\ calls (start lenient fresh).2
          = calls fresh ++ [CallHookEnter (cursor (start lenient fresh).2)])
      \/ (exists e,
           (start lenient fresh).1 = Raises e
           /\ _started (machine (start lenient fresh).2) = false
           /\ (calls (start lenient fresh).2 = calls fresh
               \/ calls (start lenient fresh).2
                  = calls fresh
                    ++ [CallHookEnter (cursor (start lenient fresh).2)]))).
Proof. apply (start_outcome lenient fresh); reflexivity. Defined.

(** A start that goes through, and the first event after it. *)
Lemma start_then_process_run :
  (start lenient fresh).1 = Returns tt
  /\ world (start lenient fresh).2 = ["validated"; "hook.on_enter A"]
  /\ world (process_event ping (start lenient fresh).2).2
     = ["validated"; "hook.on_enter A"; "hook.on_exit A"; "A.on_exit";
        "A_to_B actions"; "B.on_enter"; "hook.on_enter B"].
Proof. repeat split; reflexivity. Qed.

Lemma start_rejected_by_validator_witness :
  let e := PyException "RuntimeError" "invalid machine" None in
  let w1 := ["invalid machine"] in
  start strict fresh = (Raises e, mkSys (machine fresh) w1 (calls fresh))
  /\ forall event,
       process_event event (mkSys (machine fresh) w1 (calls fresh))
       = (Returns tt, mkSys (machine fresh) w1 (calls fresh)).
Proof.
  intros e w1.
  apply (start_rejected_by_validator strict fresh e w1); reflexivity.
Defined.

Lemma stop_ends_processing_witness :
  _stopped (machine (stop lenient scenario).2) = true
  /\ (forall event,
        process_event event (stop lenient scenario).2
        = (Returns tt, (stop lenient scenario).2))
  /\ stop lenient (stop lenient scenario).2
     = (Returns tt, (stop lenient scenario).2).
Proof. apply (stop_ends_processing lenient scenario). reflexivity. Defined.

Lemma stop_raises_keeps_running_witness :
  _stopped (machine (stop lenient clingy).2) = false
  /\ _started (machine (stop lenient clingy).2) = _started (machine clingy)
  /\ _lock (machine (stop lenient clingy).2) = false
  /\ calls (stop lenient clingy).2
     = calls clingy ++ [CallHookExit (cursor clingy)].
Proof.
  apply (stop_raises_keeps_running lenient clingy
           (PyException "RuntimeError" "on_exit failed" None));
    reflexivity.
Defined.

Lemma stopped_is_permanent_witness :
  let stopped := (stop lenient scenario).2 in
  let ops := [ApiStart; ApiProcess ping; ApiAdd B_to_A; ApiStop] in
  _stopped (machine (api_run lenient ops stopped)) = true
  /\ forall event,
       process_event event (api_run lenient ops stopped)
       = (Returns tt, api_run lenient ops stopped).
Proof.
  intros stopped ops. apply (stopped_is_permanent lenient ops stopped).
  reflexivity.
Defined.

(** The user code of [shuttle] only writes to the log. *)
Lemma shuttle_ordinary : ordinary_user_code (machine shuttle).
Proof.
  assert (Hsay : forall msg, raises_Exceptions (say msg))
    by (intros msg w e H; discriminate H).
  assert (HA : state_raises_Exceptions A) by (split; apply Hsay).
  assert (HB : state_raises_Exceptions B) by (split; apply Hsay).
  split; [exact HA|]. split.
  - repeat constructor; try done; try (intros ?; apply Hsay);
      intros event w e w' H; discriminate H.
  - split; [|done]. intros st. split; intros w e H; discriminate H.
Qed.

Lemma start_loop_processes_in_order_witness :
  start_loop lenient (length [ping; pong; ping])
    (mkLoop shuttle (Queue.mkAsyncEventQueue false [ping; pong; ping]) false)
  = (Looping,
     mkLoop (process_all (start lenient shuttle).2 [ping; pong; ping])
       (Queue.mkAsyncEventQueue false []) true).
Proof.
  apply (start_loop_processes_in_order lenient false false [ping; pong; ping]
           shuttle).
  - reflexivity.
  - reflexivity.
  - exact shuttle_ordinary.
Defined.

(** The shuttle goes to B, back to A and to B again. *)
Lemma shuttle_run :
  name (cursor (process_all shuttle [ping; pong; ping])) = "B"
  /\ name (cursor (process_all shuttle [ping; pong])) = "A".
Proof. split; reflexivity. Qed.

Lemma loop_idles_on_empty_queue_witness :
  loop_rounds 7 (mkLoop scenario (Queue.new false) true)
  = (Looping, mkLoop scenario (Queue.new false) true).
Proof.
  apply (loop_idles_on_empty_queue 7
           (mkLoop scenario (Queue.new false) true)); reflexivity.
Defined.

Lemma loop_drops_events_when_stopped_witness :
  let l :=
    mkLoop (stop lenient scenario).2
      (Queue.mkAsyncEventQueue false [ping; pong; ping]) true in
  loop_rounds 2 l
  = (Looping,
     mkLoop (loop_sys l)
       (Queue.mkAsyncEventQueue (Queue._priority_mode (loop_queue l))
          (drop 2 (Queue._queue (loop_queue l))))
       true).
Proof.
  intros l. apply (loop_drops_events_when_stopped 2 l); reflexivity.
Defined.

Lemma loop_ends_when_round_raises_witness :
  let l := mkLoop brittle (Queue.mkAsyncEventQueue false [ping; pong]) true in
  loop_rounds (0 + 5) l
  = (Ended (Raises (PyException "RuntimeError" "on_error failed" None)),
     mkLoop (process_event ping brittle).2
       (Queue.mkAsyncEventQueue (Queue._priority_mode (loop_queue l)) [pong])
       true).
Proof.
  intros l.
  apply (loop_ends_when_round_raises 0 4 l l ping [pong]
           (PyException "RuntimeError" "on_error failed" None)
           (process_event ping brittle).2); reflexivity.
Defined.

End MoreRuns.
